(** * Verification of the LinkedIn H1B sponsor detector

    A shallow embedding of [analyzer.js] (the tiered text classifier) and of
    the change-detection core of [content.js] (the page monitor), together
    with the part of [highlighter.js] that selects the cited phrase.

    JavaScript strings are modelled as lists of code units.  A code unit is
    an [ascii], read as a UTF-16 code unit in the range 0..255 (Basic Latin
    and Latin-1 Supplement); on that range case mapping, [\s], [\w] and line
    terminators are modelled exactly as ECMAScript defines them. *)

From Stdlib Require Import List Bool Arith Lia Ascii String ZArith.
From Stdlib Require Import DecimalString DecimalNat SpecFloat.
Import ListNotations.

Set Implicit Arguments.
Local Open Scope list_scope.
Local Open Scope nat_scope.

(** ** JavaScript strings *)

Definition jsstring := list ascii.

Definition str (s : string) : jsstring := list_ascii_of_string s.

Definition jsstring_eq_dec : forall a b : jsstring, {a = b} + {a <> b} :=
  list_eq_dec ascii_dec.

Definition code (c : ascii) : nat := nat_of_ascii c.

Definition in_range (lo hi : nat) (c : ascii) : bool :=
  (lo <=? code c) && (code c <=? hi).

(** [WhiteSpace] and [LineTerminator] code units below 256: TAB, LF, VT, FF,
    CR, SP and NBSP.  This is the set [\s] matches and [trim] strips. *)
Definition is_space (c : ascii) : bool :=
  in_range 9 13 c || (code c =? 32) || (code c =? 160).

(** [\w] without the [u] flag: [A-Za-z0-9_]. *)
Definition is_word_char (c : ascii) : bool :=
  in_range 97 122 c || in_range 65 90 c || in_range 48 57 c || (code c =? 95).

(** LF and CR, the line terminators below 256 (excluded by [.]). *)
Definition is_line_terminator (c : ascii) : bool :=
  (code c =? 10) || (code c =? 13).

(** Code units with a distinct lower-case form below 256: [A-Z] and the
    Latin-1 capitals U+00C0..U+00DE except the multiplication sign. *)
Definition is_upper (c : ascii) : bool :=
  in_range 65 90 c || (in_range 192 222 c && negb (code c =? 215)).

Definition lower_char (c : ascii) : ascii :=
  if is_upper c then ascii_of_nat (code c + 32) else c.

(** [String.prototype.toLowerCase]. *)
Definition toLowerCase (s : jsstring) : jsstring := map lower_char s.

(** Code units whose upper-case form is a single code unit below 256.  The
    regular-expression [Canonicalize] operation (flag [i], no flag [u]) maps
    them to that form and leaves every other code unit of the range in a
    class of its own. *)
Definition is_lower (c : ascii) : bool :=
  in_range 97 122 c || (in_range 224 254 c && negb (code c =? 247)).

Definition canonicalize (ignoreCase : bool) (c : ascii) : ascii :=
  if ignoreCase && is_lower c then ascii_of_nat (code c - 32) else c.

Definition char_eqb (a b : ascii) : bool := Ascii.eqb a b.

(** [String.prototype.substring(start, end)] on in-range naturals: both
    arguments are clamped to the length and swapped when out of order. *)
Definition substring (s : jsstring) (st en : nat) : jsstring :=
  let a := Nat.min st (List.length s) in
  let b := Nat.min en (List.length s) in
  let lo := Nat.min a b in
  let hi := Nat.max a b in
  firstn (hi - lo) (skipn lo s).

Fixpoint trimStart (s : jsstring) : jsstring :=
  match s with
  | c :: s' => if is_space c then trimStart s' else s
  | [] => []
  end.

(** [String.prototype.trim]. *)
Definition trim (s : jsstring) : jsstring :=
  rev (trimStart (rev (trimStart s))).

(** ** Regular expressions

    The abstract syntax covers the constructs that occur in the pattern
    catalogue of [analyzer.js] and in the pattern built by [isNegated]. *)

Inductive regex : Type :=
| Empty                                   (* the empty alternative *)
| Char (c : ascii)                        (* a pattern character *)
| Dot                                     (* [.] *)
| Whitespace                              (* [\s] *)
| NotClass (cs : list ascii)              (* [[^...]] *)
| WordBoundary                            (* [\b] *)
| EndAnchor                               (* [$] *)
| Seq (r1 r2 : regex)
| Alt (r1 r2 : regex)                     (* [r1|r2] *)
| Quant (r : regex) (min : nat) (max : option nat). (* greedy quantifier *)

(** *** Parsing of pattern sources *)

Inductive nonterminal := NDisjunction | NAlternative | NTerm.

Definition is_digit (c : ascii) : bool := in_range 48 57 c.

Fixpoint read_nat (acc : nat) (s : jsstring) : nat * jsstring :=
  match s with
  | c :: s' => if is_digit c then read_nat (10 * acc + (code c - 48)) s' else (acc, s)
  | [] => (acc, s)
  end.

Fixpoint read_class (s : jsstring) : option (list ascii * jsstring) :=
  match s with
  | "]"%char :: s' => Some ([], s')
  | "\"%char :: c :: s' =>
      match read_class s' with Some (cs, t) => Some (c :: cs, t) | None => None end
  | c :: s' =>
      match read_class s' with Some (cs, t) => Some (c :: cs, t) | None => None end
  | [] => None
  end.

(** The quantifier that may follow an atom. *)
Definition parse_quantifier (r : regex) (s : jsstring) : option (regex * jsstring) :=
  match s with
  | "*"%char :: s' => Some (Quant r 0 None, s')
  | "+"%char :: s' => Some (Quant r 1 None, s')
  | "?"%char :: s' => Some (Quant r 0 (Some 1), s')
  | "{"%char :: s' =>
      match s' with
      | d :: _ =>
          if is_digit d then
            let (lo, s1) := read_nat 0 s' in
            match s1 with
            | "}"%char :: s2 => Some (Quant r lo (Some lo), s2)
            | ","%char :: "}"%char :: s2 => Some (Quant r lo None, s2)
            | ","%char :: s2 =>
                let (hi, s3) := read_nat 0 s2 in
                match s3 with
                | "}"%char :: s4 => if lo <=? hi then Some (Quant r lo (Some hi), s4) else None
                | _ => None
                end
            | _ => None
            end
          else None
      | [] => None
      end
  | _ => Some (r, s)
  end.

Fixpoint parse (fuel : nat) (k : nonterminal) (s : jsstring) : option (regex * jsstring) :=
  match fuel with
  | 0 => None
  | S f =>
      match k with
      | NDisjunction =>
          match parse f NAlternative s with
          | Some (r1, "|"%char :: s1) =>
              match parse f NDisjunction s1 with
              | Some (r2, s2) => Some (Alt r1 r2, s2)
              | None => None
              end
          | other => other
          end
      | NAlternative =>
          match s with
          | [] => Some (Empty, s)
          | "|"%char :: _ => Some (Empty, s)
          | ")"%char :: _ => Some (Empty, s)
          | _ =>
              match parse f NTerm s with
              | Some (r1, s1) =>
                  match parse f NAlternative s1 with
                  | Some (r2, s2) => Some (Seq r1 r2, s2)
                  | None => None
                  end
              | None => None
              end
          end
      | NTerm =>
          match s with
          | "$"%char :: s' => Some (EndAnchor, s')
          | "\"%char :: "b"%char :: s' => Some (WordBoundary, s')
          | "\"%char :: "s"%char :: s' => parse_quantifier Whitespace s'
          | "\"%char :: c :: s' =>
              if is_word_char c then None else parse_quantifier (Char c) s'
          | "."%char :: s' => parse_quantifier Dot s'
          | "["%char :: "^"%char :: s' =>
              match read_class s' with
              | Some (cs, s1) => parse_quantifier (NotClass cs) s1
              | None => None
              end
          | "("%char :: s' =>
              match parse f NDisjunction s' with
              | Some (r, ")"%char :: s1) => parse_quantifier r s1
              | _ => None
              end
          | c :: s' =>
              if existsb (char_eqb c) (str "*+?{}[]^|)\") then None
              else parse_quantifier (Char c) s'
          | [] => None
          end
      end
  end.

(** [new RegExp(source)]: [None] stands for the [SyntaxError] of a source
    outside the supported syntax. *)
Definition compile (source : jsstring) : option regex :=
  match parse (3 * List.length source + 3) NDisjunction source with
  | Some (r, []) => Some r
  | _ => None
  end.

(** *** Backtracking matcher

    A [cursor] is a position in the subject string: [before] holds the code
    units to the left of the position, nearest first, and [after] those at
    and to the right of it.  The matcher returns every end position a
    pattern can reach from a start position, in the priority order of the
    ECMAScript backtracking semantics (greedy quantifiers try one more
    iteration first, alternatives are tried left to right); the first
    element is the match [exec] reports. *)

Record cursor := Cursor { before : jsstring; after : jsstring }.

Definition position (c : cursor) : nat := List.length (before c).

Definition advance (p : ascii -> bool) (c : cursor) : list cursor :=
  match after c with
  | a :: rest => if p a then [Cursor (a :: before c) rest] else []
  | [] => []
  end.

Definition word_before (c : cursor) : bool :=
  match before c with a :: _ => is_word_char a | [] => false end.

Definition word_after (c : cursor) : bool :=
  match after c with a :: _ => is_word_char a | [] => false end.

Section Matcher.

Variable ignoreCase : bool.

Definition same_char (a b : ascii) : bool :=
  char_eqb (canonicalize ignoreCase a) (canonicalize ignoreCase b).

(** [RepeatMatcher]: an iteration that consumes nothing once the minimum
    is met is rejected; the fuel bounds the number of iterations by
    [min] plus the number of remaining code units. *)
Fixpoint repeat_matcher (m : cursor -> list cursor) (fuel min : nat)
    (max : option nat) (x : cursor) : list cursor :=
  match fuel with
  | 0 => []
  | S f =>
      match max with
      | Some 0 => [x]
      | _ =>
          let again :=
            flat_map (fun y =>
              if (min =? 0) && (position y =? position x) then []
              else repeat_matcher m f (pred min) (option_map pred max) y) (m x) in
          if min =? 0 then again ++ [x] else again
      end
  end.

Fixpoint matcher (r : regex) (x : cursor) : list cursor :=
  match r with
  | Empty => [x]
  | Char c => advance (same_char c) x
  | Dot => advance (fun a => negb (is_line_terminator a)) x
  | Whitespace => advance is_space x
  | NotClass cs => advance (fun a => negb (existsb (same_char a) cs)) x
  | WordBoundary => if xorb (word_before x) (word_after x) then [x] else []
  | EndAnchor => match after x with [] => [x] | _ => [] end
  | Seq r1 r2 => flat_map (matcher r2) (matcher r1 x)
  | Alt r1 r2 => matcher r1 x ++ matcher r2 x
  | Quant r' min max =>
      repeat_matcher (matcher r') (S (min + List.length (after x))) min max x
  end.

(** The scan of [RegExpBuiltinExec]: try the start position, then each
    later one, up to and including the end of the subject. *)
Fixpoint search (r : regex) (bef aft : jsstring) : option (cursor * cursor) :=
  match matcher r (Cursor bef aft) with
  | e :: _ => Some (Cursor bef aft, e)
  | [] =>
      match aft with
      | a :: rest => search r (a :: bef) rest
      | [] => None
      end
  end.

End Matcher.

(** A [RegExp] object: its source and the two flags the program uses. *)
Record RegExp := { source : jsstring; ignoreCase : bool; global : bool }.

(** A literal [/source/i]. *)
Definition re_i (src : string) : RegExp :=
  {| source := str src; ignoreCase := true; global := false |}.

(** The cursor at index [i] of [text]. *)
Definition cursor_at (text : jsstring) (i : nat) : cursor :=
  Cursor (rev (firstn i text)) (skipn i text).

(** Computations that may fail to return a value: [None] stands for a
    thrown exception or for a loop that does not terminate. *)
Definition bind {A B} (x : option A) (k : A -> option B) : option B :=
  match x with Some a => k a | None => None end.

Notation "x <- e ;; k" := (bind e (fun x => k))
  (at level 61, e at next level, right associativity).

(** One [exec] call at [lastIndex]; the value [Some None] is the [null]
    result.  A pattern source outside the supported syntax raises. *)
Definition exec (p : RegExp) (text : jsstring) (lastIndex : nat)
    : option (option (cursor * cursor)) :=
  r <- compile (source p) ;;
  Some (if lastIndex <=? List.length text
        then search (ignoreCase p) r (before (cursor_at text lastIndex))
                    (after (cursor_at text lastIndex))
        else None).

(** [RegExp.prototype.test] and [String.prototype.match] for a pattern
    without the [g] flag: [lastIndex] is ignored, the scan starts at 0. *)
Definition test (p : RegExp) (s : jsstring) : option bool :=
  m <- exec p s 0 ;;
  Some (match m with Some _ => true | None => false end).

Definition String_match (s : jsstring) (p : RegExp) : option (option jsstring) :=
  m <- exec p s 0 ;;
  Some (match m with
        | Some (b, e) => Some (substring s (position b) (position e))
        | None => None
        end).

(** One [exec] call at [lastIndex] of a regular expression object whose
    pattern is [r]; [None] is the [null] result. *)
Definition exec_compiled (ignoreCase : bool) (r : regex) (text : jsstring)
    (lastIndex : nat) : option (cursor * cursor) :=
  if lastIndex <=? List.length text
  then search ignoreCase r (before (cursor_at text lastIndex))
              (after (cursor_at text lastIndex))
  else None.

Fixpoint starts_with (p s : jsstring) : bool :=
  match p, s with
  | [], _ => true
  | a :: p', b :: s' => char_eqb a b && starts_with p' s'
  | _ :: _, [] => false
  end.

Fixpoint indexOf_from (s p : jsstring) (k : nat) : option nat :=
  if starts_with p s then Some k
  else match s with
       | [] => None
       | _ :: s' => indexOf_from s' p (S k)
       end.

(** [String.prototype.indexOf(searchString)]; [None] is the result -1. *)
Definition indexOf (s p : jsstring) : option nat := indexOf_from s p 0.

(** ** JavaScript values

    The argument of [analyze] is an arbitrary value. *)

Inductive JSValue : Type :=
| JSUndefined
| JSNull
| JSBoolean (b : bool)
| JSNumber (x : spec_float)
| JSBigInt (z : Z)
| JSString (s : jsstring)
| JSSymbol (description : jsstring)
| JSObject (callable : bool).

(** [ToBoolean]. *)
Definition truthy (v : JSValue) : bool :=
  match v with
  | JSUndefined | JSNull => false
  | JSBoolean b => b
  | JSNumber (S754_zero _) | JSNumber S754_nan => false
  | JSNumber _ => true
  | JSBigInt z => negb (Z.eqb z 0)
  | JSString s => match s with [] => false | _ => true end
  | JSSymbol _ | JSObject _ => true
  end.

Definition typeof (v : JSValue) : jsstring :=
  match v with
  | JSUndefined => str "undefined"
  | JSNull => str "object"
  | JSBoolean _ => str "boolean"
  | JSNumber _ => str "number"
  | JSBigInt _ => str "bigint"
  | JSString _ => str "string"
  | JSSymbol _ => str "symbol"
  | JSObject callable => if callable then str "function" else str "object"
  end.

Definition jsstring_eqb (a b : jsstring) : bool :=
  if jsstring_eq_dec a b then true else false.

(** [[...new Set(array)]]: the elements in order of first insertion. *)
Fixpoint Set_spread (seen array : list jsstring) : list jsstring :=
  match array with
  | [] => []
  | x :: rest =>
      if existsb (jsstring_eqb x) seen then Set_spread seen rest
      else x :: Set_spread (x :: seen) rest
  end.

(** ** analyzer.js *)

Module Analyzer.

(* Strong Positive Indicators (explicit sponsorship mention) *)
Definition STRONG_POSITIVE_PATTERNS : list RegExp := [
  re_i "\bH1B\s+sponsorship\b";
  re_i "\bH1B\s+visa\s+sponsorship\b";
  re_i "\bH-1B\s+sponsorship\b";
  re_i "\bvisa\s+sponsorship\b";
  re_i "\bwork\s+visa\s+sponsorship\b";
  re_i "\bemployment\s+visa\s+sponsorship\b";
  re_i "\bsponsor\s+H1B\b";
  re_i "\bsponsor\s+visa\b";
  re_i "\bprovide\s+sponsorship\b";
  re_i "\bsponsorship\s+available\b";
  re_i "\bsponsorship\s+provided\b";
  re_i "\boffers\s+sponsorship\b";
  re_i "\bwilling\s+to\s+sponsor\b";
  re_i "\bwill\s+sponsor\b";
  re_i "\bcan\s+sponsor\b";
  re_i "\bsponsor\s+for\s+international\s+candidates\b";
  re_i "\binternational\s+sponsorship\b";
  re_i "\bwork\s+authorization\s+sponsorship\b";
  re_i "\bemployment\s+authorization\s+sponsorship\b";
  re_i "\bTN\s+visa\b";
  re_i "\bE-3\s+visa\b";
  re_i "\bO-1\s+visa\b";
  re_i "\bL-1\s+visa\b";
  re_i "\bJ-1\s+visa\b";
  re_i "\bOPT\s+to\s+H1B\b";
  re_i "\bpleased\s+to\s+offer\s+visa\s+sponsorship\b";
  re_i "\bpleased\s+to\s+offer\s+sponsorship\b";
  re_i "\boffer\s+visa\s+sponsorship\b";
  re_i "\boffer\s+sponsorship\b"
].

(* Moderate Positive Indicators (implies openness) *)
Definition MODERATE_POSITIVE_PATTERNS : list RegExp := [
  re_i "\bopen\s+to\s+international\s+candidates\b";
  re_i "\binternational\s+applicants\s+welcome\b";
  re_i "\bglobal\s+talent\b";
  re_i "\bdiverse\s+candidates\b";
  re_i "\binternational\s+experience\s+preferred\b";
  re_i "\brelocation\s+assistance\b";
  re_i "\bimmigration\s+support\b"
].

(* Strong Negative Indicators (explicit exclusion) *)
Definition STRONG_NEGATIVE_PATTERNS : list RegExp := [
  re_i "\bU\.?S\.?\s+citizens?\s+only\b";
  re_i "\bU\.?S\.?\s+citizenship\s+required\b";
  re_i "\bmust\s+be\s+(a\s+)?U\.?S\.?\s+citizen\b";
  re_i "\bmust\s+be\s+(a\s+)?United\s+States\s+citizen\b";
  re_i "\bU\.?S\.?\s+citizenship\s+only\b";
  re_i "\bno\s+sponsorship\b";
  re_i "\bdoes\s+not\s+sponsor\b";
  re_i "\bcannot\s+sponsor\b";
  re_i "\bcan't\s+sponsor\b";
  re_i "\bunable\s+to\s+sponsor\b";
  re_i "\bunable\s+to\s+sponsor.*work\s+visas?\b";
  re_i "\bnot\s+sponsoring\b";
  re_i "\bsponsorship\s+not\s+available\b";
  re_i "\bno\s+visa\s+sponsorship\b";
  re_i "\bmust\s+have\s+work\s+authorization\b";
  re_i "\bno\s+visa\s+support\b";
  re_i "\bwill\s+not\s+sponsor\b";
  re_i "\bsponsorship\s+not\s+provided\b";
  re_i "\bU\.?S\.?\s+work\s+authorization\s+required\b";
  re_i "\bcitizenship\s+required\b";
  re_i "\bU\.?S\.?\s+citizenship\s+mandatory\b";
  re_i "\bsecurity\s+clearance\s+required\b";
  re_i "\bDOD\s+security\s+clearance\b";
  re_i "\bD\.?O\.?D\.?\s+security\s+clearance\b";
  re_i "\beligible\s+to\s+obtain\s+(a\s+)?(DOD|D\.?O\.?D\.?|security)\s+clearance\b";
  re_i "\bmust\s+be\s+eligible\s+for\s+security\s+clearance\b";
  re_i "\bmust\s+obtain\s+security\s+clearance\b";
  re_i "\bable\s+to\s+obtain\s+security\s+clearance\b";
  re_i "\bclearance\s+eligible\b";
  re_i "\bsecurity\s+clearance\s+eligible\b";
  re_i "\bmust\s+possess\s+U\.?S\.?\s+citizenship\b";
  re_i "\bITAR\s+requirements?\b";
  re_i "\bITAR\s+compliance\b";
  re_i "\bITAR\s+eligible\b";
  re_i "\bmust\s+be\s+ITAR\s+eligible\b";
  re_i "\bU\.?S\.?\s+citizen\s+or\s+national\b";
  re_i "\bU\.?S\.?\s+lawful\s+permanent\s+resident\b";
  re_i "\bgreen\s+card\s+holder\b";
  re_i "\bexport\s+control\s+regulations?\b";
  re_i "\bDepartment\s+of\s+State\s+authorization\b"
].

(* Moderate Negative Indicators (likely exclusion) *)
Definition MODERATE_NEGATIVE_PATTERNS : list RegExp := [
  re_i "\bno\s+relocation\s+assistance\b";
  re_i "\blocal\s+candidates\s+only\b"
].

(* Negation patterns to detect negative context *)
Definition NEGATION_PATTERNS : list RegExp := [
  re_i "\bno\s+";
  re_i "\bnot\s+";
  re_i "\bdoesn't\s+";
  re_i "\bdoes\s+not\s+";
  re_i "\bcannot\s+";
  re_i "\bcan't\s+";
  re_i "\bwill\s+not\s+";
  re_i "\bwon't\s+"
].

(** A match object pushed by [findMatches]. *)
Record Match := { text : jsstring; index : nat; length : nat }.

(** The pattern [new RegExp(negPattern.source + '[^.]{0,20}$', 'i')]. *)
Definition close_to_end (negPattern : RegExp) : RegExp :=
  {| source := source negPattern ++ str "[^.]{0,20}$";
     ignoreCase := true; global := false |}.

(** The [for] loop of [isNegated] over the remaining negation patterns. *)
Fixpoint isNegated_from (patterns : list RegExp) (contextBefore : jsstring)
    : option bool :=
  match patterns with
  | [] => Some false
  | negPattern :: rest =>
      found <- test negPattern contextBefore ;;
      if found then
        lastNegMatch <- String_match contextBefore (close_to_end negPattern) ;;
        match lastNegMatch with
        | Some _ => Some true
        | None => isNegated_from rest contextBefore
        end
      else isNegated_from rest contextBefore
  end.

(** [isNegated(text, matchIndex, matchLength)].  Indices are naturals, so
    [matchIndex - 50] is already [Math.max(0, matchIndex - 50)]. *)
Definition isNegated (text : jsstring) (matchIndex matchLength : nat)
    : option bool :=
  let contextBefore :=
    toLowerCase (substring text (Nat.max 0 (matchIndex - 50)) matchIndex) in
  isNegated_from NEGATION_PATTERNS contextBefore.

(** The [while] loop of [findMatches]: each [exec] call resumes at the
    [lastIndex] left by the previous one.  The loop has no bound in the
    source; running out of fuel is non-termination. *)
Fixpoint findMatches_loop (fuel : nat) (globalPattern : RegExp)
    (text : jsstring) (lastIndex : nat) : option (list Match) :=
  match fuel with
  | 0 => None
  | S f =>
      m <- exec globalPattern text lastIndex ;;
      match m with
      | None => Some []
      | Some (b, e) =>
          rest <- findMatches_loop f globalPattern text (position e) ;;
          let match0 := substring text (position b) (position e) in
          Some ({| text := match0; index := position b;
                   length := List.length match0 |} :: rest)
      end
  end.

(** [findMatches(pattern, text)].  The global pattern is the pattern
    itself or a fresh copy with the [g] flag; in both cases the scan
    starts at [lastIndex = 0], since a completed scan resets it. *)
Definition findMatches (pattern : RegExp) (text : jsstring)
    : option (list Match) :=
  let globalPattern :=
    if global pattern then pattern
    else {| source := source pattern; ignoreCase := ignoreCase pattern;
            global := true |} in
  findMatches_loop (S (List.length text)) globalPattern text 0.

Inductive Status := yes | no | unclear.
Inductive Confidence := low | medium | high.

Record Details := {
  strongPositive : list jsstring;
  moderatePositive : list jsstring;
  strongNegative : list jsstring;
  moderateNegative : list jsstring
}.

Record Verdict := {
  status : Status;
  score : Z;
  confidence : Confidence;
  matchedKeywords : list jsstring;
  message : jsstring;
  details : option Details
}.

(** The inner loop over the matches of one positive pattern: a match is
    pushed unless it is negated. *)
Fixpoint push_unless_negated (text : jsstring) (matches : list Match)
    : option (list jsstring) :=
  match matches with
  | [] => Some []
  | m :: rest =>
      negated <- isNegated text (index m) (length m) ;;
      tail <- push_unless_negated text rest ;;
      Some (if negated then tail else Analyzer.text m :: tail)
  end.

(** The outer loop over a positive catalogue. *)
Fixpoint scan_positive (patterns : list RegExp) (text : jsstring)
    : option (list jsstring) :=
  match patterns with
  | [] => Some []
  | pattern :: rest =>
      matches <- findMatches pattern text ;;
      pushed <- push_unless_negated text matches ;;
      tail <- scan_positive rest text ;;
      Some (pushed ++ tail)
  end.

(** The outer loop over a negative catalogue: every match is pushed. *)
Fixpoint scan_negative (patterns : list RegExp) (text : jsstring)
    : option (list jsstring) :=
  match patterns with
  | [] => Some []
  | pattern :: rest =>
      matches <- findMatches pattern text ;;
      tail <- scan_negative rest text ;;
      Some (map Analyzer.text matches ++ tail)
  end.

(** The four scans of [analyze], in source order. *)
Definition scan (text : jsstring) : option Details :=
  sp <- scan_positive STRONG_POSITIVE_PATTERNS text ;;
  mp <- scan_positive MODERATE_POSITIVE_PATTERNS text ;;
  sn <- scan_negative STRONG_NEGATIVE_PATTERNS text ;;
  mn <- scan_negative MODERATE_NEGATIVE_PATTERNS text ;;
  Some {| strongPositive := sp; moderatePositive := mp;
          strongNegative := sn; moderateNegative := mn |}.

Definition nonempty {A} (l : list A) : bool :=
  match l with [] => false | _ => true end.

(** The status decision of [analyze]: status, message, confidence. *)
Definition decide (d : Details) : Status * jsstring * Confidence :=
  if nonempty (strongPositive d) then (yes, str "Sponsorship Available", high)
  else if nonempty (strongNegative d) then (no, str "No Sponsorship", high)
  else if nonempty (moderatePositive d) then (yes, str "Sponsorship Available", medium)
  else if nonempty (moderateNegative d) then (no, str "No Sponsorship", medium)
  else (yes, str "Sponsorship Available", low).

Definition score_of (d : Details) : Z :=
  if nonempty (strongPositive d) then 3%Z
  else if nonempty (moderatePositive d) then 1%Z
  else if nonempty (strongNegative d) then (-3)%Z
  else if nonempty (moderateNegative d) then (-1)%Z
  else 0%Z.

(** The verdict returned for a missing or non-string description. *)
Definition no_description : Verdict :=
  {| status := unclear; score := 0%Z; confidence := low;
     matchedKeywords := [];
     message := str "No job description found";
     details := None |}.

(** The string a string value holds. *)
Definition string_of (v : JSValue) : jsstring :=
  match v with JSString s => s | _ => [] end.

(** [analyze(jobDescription)]. *)
Definition analyze (jobDescription : JSValue) : option Verdict :=
  if negb (truthy jobDescription)
     || negb (jsstring_eqb (typeof jobDescription) (str "string"))
  then Some no_description
  else
    let text := string_of jobDescription in
    d <- scan text ;;
    let '(status, message, confidence) := decide d in
    let allMatchedKeywords :=
      strongPositive d ++ moderatePositive d ++
      strongNegative d ++ moderateNegative d in
    Some {| status := status; score := score_of d;
            confidence := confidence;
            matchedKeywords := Set_spread [] allMatchedKeywords;
            message := message;
            details := Some d |}.

End Analyzer.

(** ** highlighter.js *)

Module Highlighter.

Import Analyzer.

(** The phrase [highlight] cites: for a verdict with status ['no'], the
    first element of [details.strongNegative] when that list is not
    empty, else of [details.moderateNegative] ([firstMatch] in
    [highlightSentences]).  Nothing is cited for another status. *)
Definition firstMatch (analysisResult : Verdict) : option jsstring :=
  match status analysisResult with
  | no =>
      match details analysisResult with
      | Some d =>
          let matchedPhrases :=
            if nonempty (strongNegative d) then strongNegative d
            else moderateNegative d in
          hd_error matchedPhrases
      | None => None
      end
  | _ => None
  end.

(** The pattern of [/[.!?]\s+|$/g]: a sentence mark followed by
    whitespace, or the end of the text.  The class is the alternative of
    its three members. *)
Definition sentenceEndRegex : regex :=
  Alt (Seq (Alt (Char "."%char) (Alt (Char "!"%char) (Char "?"%char)))
           (Seq (Quant Whitespace 1 None) Empty))
      (Seq EndAnchor Empty).

(** The [while] loop of [extractSentence] that looks for the sentence
    start: [Some start] when the loop is left, by [break] or by a [null]
    result.  The loop has no bound in the source; running out of fuel is
    non-termination. *)
Fixpoint sentence_start (fuel : nat) (text : jsstring)
    (matchIndex lastIndex : nat) : option nat :=
  match fuel with
  | 0 => None
  | S f =>
      match exec_compiled false sentenceEndRegex text lastIndex with
      | None => Some 0
      | Some (b, e) =>
          (* startMatch.index + startMatch[0].length is the end of the match *)
          if matchIndex <=? position e
          then Some (if position b =? 0 then 0 else position e)
          else sentence_start f text matchIndex (position e)
      end
  end.

(** [extractSentence(text, matchIndex, matchLength)] with a bound on the
    iterations of its loop; the inner [None] is the [null] result. *)
Definition extractSentence_within (fuel : nat) (text : jsstring)
    (matchIndex matchLength : nat) : option (option jsstring) :=
  let stop :=
    match exec_compiled false sentenceEndRegex text (matchIndex + matchLength) with
    | Some (b, e) => position e
    | None => List.length text
    end in
  start <- sentence_start fuel text matchIndex 0 ;;
  let sentence := trim (substring text start stop) in
  Some (if 10 <? List.length sentence then Some sentence else None).

(** [extractSentence]: the loop either leaves within [length + 2]
    iterations or never. *)
Definition extractSentence (text : jsstring) (matchIndex matchLength : nat)
    : option (option jsstring) :=
  extractSentence_within (List.length text + 2) text matchIndex matchLength.

Inductive Action :=
| RemoveHighlights
| SetTimeout_highlightSentences (matchedPhrases : list jsstring)
    (fullText : jsstring) (delay : nat).



End Highlighter.

(** ** content.js *)

Module Content.

(** The module-level variables of the content script. *)
Record State := {
  currentJobId : option jsstring;
  currentJobDescriptionHash : option jsstring;
  isProcessing : bool
}.

(** What one invocation reads from the window and the document. *)
Record Page := {
  isLinkedInJobPage : bool;
  extractJobId : option jsstring;
  extractJobDescription : option jsstring;
  badge : bool   (* [document.getElementById('h1b-sponsor-badge')] is found *)
}.

Inductive Callback :=
| ProcessJobPage (force : bool)
| Highlight (analysisResult : Analyzer.Verdict) (description : option jsstring).

Inductive Effect :=
| SetTimeout (callback : Callback) (delay : nat)
| UpdateBadge (analysisResult : Analyzer.Verdict)
| InjectBadge (analysisResult : Analyzer.Verdict)
| RemoveBadge
| RemoveHighlights.

(** Number-to-string conversion of a length. *)
Definition Number_toString (n : nat) : jsstring :=
  str (NilEmpty.string_of_uint (Nat.to_uint n)).

(** A string or [null] as a value. *)
Definition value_of (text : option jsstring) : JSValue :=
  match text with Some s => JSString s | None => JSNull end.

(** [!text] for a string or [null]. *)
Definition falsy (text : option jsstring) : bool :=
  negb (truthy (value_of text)).

(** [hashJobDescription(text)]. *)
Definition hashJobDescription (text : option jsstring) : option jsstring :=
  match text with
  | Some t =>
      if falsy text then None
      else
        let preview := trim (substring t 0 200) in
        Some (preview ++ str "|" ++ Number_toString (List.length t))
  | None => None
  end.

(** Strict equality [===] of two values that are strings or [null]. *)
Definition strict_eq (a b : option jsstring) : bool :=
  match a, b with
  | Some x, Some y => jsstring_eqb x y
  | None, None => true
  | _, _ => false
  end.

(** [processJobPage(force)]: the new module state and the effects issued,
    in order. *)
Definition processJobPage (force : bool) (st : State) (pg : Page)
    : option (State * list Effect) :=
  if isProcessing st && negb force then Some (st, [])
  else if negb (isLinkedInJobPage pg) then Some (st, [])
  else
    let jobId := extractJobId pg in
    let description := extractJobDescription pg in
    let descriptionHash := hashJobDescription description in
    let jobIdChanged := negb (strict_eq jobId (currentJobId st)) in
    let descriptionChanged :=
      negb (strict_eq descriptionHash (currentJobDescriptionHash st)) in
    if negb force && negb jobIdChanged && negb descriptionChanged && badge pg
    then Some (st, [])
    else
      if falsy description then
        (* Don't process if we're waiting for description to load *)
        if negb force && strict_eq (currentJobId st) jobId then Some (st, [])
        else Some (st, [SetTimeout (ProcessJobPage force) 300])
      else
        analysisResult <- Analyzer.analyze (value_of description) ;;
        let badgeEffect :=
          if badge pg then UpdateBadge analysisResult
          else InjectBadge analysisResult in
        let highlightEffect :=
          match Analyzer.status analysisResult with
          | Analyzer.no => SetTimeout (Highlight analysisResult description) 100
          | _ => RemoveHighlights
          end in
        Some ({| currentJobId := jobId;
                 currentJobDescriptionHash := descriptionHash;
                 isProcessing := false |},
              [badgeEffect; highlightEffect]).

(** [checkForJobChange()]. *)
Definition checkForJobChange (st : State) (pg : Page)
    : option (State * list Effect) :=
  if isProcessing st then Some (st, [])
  else
    let jobId := extractJobId pg in
    let description := extractJobDescription pg in
    let descriptionHash := hashJobDescription description in
    if negb (strict_eq jobId (currentJobId st))
       || negb (strict_eq descriptionHash (currentJobDescriptionHash st))
    then
      if negb (strict_eq jobId (currentJobId st)) then
        let cleared := {| currentJobId := None;
                          currentJobDescriptionHash := None;
                          isProcessing := isProcessing st |} in
        r <- processJobPage true cleared
               {| isLinkedInJobPage := isLinkedInJobPage pg;
                  extractJobId := extractJobId pg;
                  extractJobDescription := extractJobDescription pg;
                  badge := false |} ;;
        Some (fst r, RemoveBadge :: RemoveHighlights :: snd r)
      else processJobPage true st pg
    else Some (st, []).

(** The retry timer: [after_retries n force st pg] is the outcome of the
    call that runs after [n] scheduled retries have fired, on a page that
    stays as it is.  The chain stops at the first call that schedules no
    retry. *)
Fixpoint after_retries (n : nat) (force : bool) (st : State) (pg : Page)
    : option (State * list Effect) :=
  match n with
  | 0 => processJobPage force st pg
  | S k =>
      r <- processJobPage force st pg ;;
      match r with
      | (st', [SetTimeout (ProcessJobPage force') _]) =>
          after_retries k force' st' pg
      | _ => Some r
      end
  end.

(** [handleUrlChange()]. *)
Definition handleUrlChange (st : State) (pg : Page) : State * list Effect :=
  let newJobId := extractJobId pg in
  if negb (strict_eq newJobId (currentJobId st)) then
    ({| currentJobId := None;
        currentJobDescriptionHash := None;
        isProcessing := isProcessing st |},
     [RemoveBadge; RemoveHighlights; SetTimeout (ProcessJobPage true) 200])
  else (st, []).

End Content.

(** ** badge.js *)

Module BadgeManager.

(** What one invocation finds in the document. *)
Record Dom := {
  existingBadge : bool;       (* an element with id [h1b-sponsor-badge] *)
  existingContainer : bool;   (* an element with id [h1b-sponsor-badge-container] *)
  Highlighter_defined : bool; (* [typeof Highlighter !== 'undefined'] *)
  findBadgeContainer : bool;  (* [findBadgeContainer()] returns an element *)
  jobTitle : bool;            (* [container.querySelector('h1, h2')] is found *)
  body : bool                 (* [document.body] *)
}.

Inductive Action :=
| RemoveExistingBadge
| RemoveExistingContainer
| RemoveHighlights
| SetTimeout_injectBadge (analysisResult : Analyzer.Verdict)
    (retryCount : nat) (delay : nat)
| InsertAfterTitle (analysisResult : Analyzer.Verdict)
| InsertFirstInContainer (analysisResult : Analyzer.Verdict)
| AppendFixedToBody (analysisResult : Analyzer.Verdict).

(** [removeBadge()]. *)
Definition removeBadge (dom : Dom) : list Action :=
  (if existingBadge dom then [RemoveExistingBadge] else []) ++
  (if existingContainer dom then [RemoveExistingContainer] else []) ++
  (if Highlighter_defined dom then [RemoveHighlights] else []).

(** [injectBadge(analysisResult, retryCount)]: the actions and the
    returned boolean. *)
Definition injectBadge (dom : Dom) (analysisResult : Analyzer.Verdict)
    (retryCount : nat) : list Action * bool :=
  let removed := removeBadge dom in
  if negb (findBadgeContainer dom) then
    if retryCount <? 3 then
      (removed ++ [SetTimeout_injectBadge analysisResult (retryCount + 1)
                     (500 * (retryCount + 1))], false)
    else if body dom then (removed ++ [AppendFixedToBody analysisResult], true)
    else (removed, false)
  else if jobTitle dom then (removed ++ [InsertAfterTitle analysisResult], true)
  else (removed ++ [InsertFirstInContainer analysisResult], true).

(** The retry a call has scheduled, if any. *)
Fixpoint scheduled_retry (actions : list Action) : option (nat * nat) :=
  match actions with
  | [] => None
  | SetTimeout_injectBadge _ retryCount delay :: _ => Some (retryCount, delay)
  | _ :: rest => scheduled_retry rest
  end.

(** [injectBadge] followed by the retries it schedules: [doms k] is the
    document found by the call with [retryCount = k].  The result is the
    list of all actions and the boolean of the last call; running out of
    fuel stands for a chain that does not end. *)
Fixpoint injectBadge_chain (fuel : nat) (doms : nat -> Dom)
    (analysisResult : Analyzer.Verdict) (retryCount : nat)
    : option (list Action * bool) :=
  match fuel with
  | 0 => None
  | S f =>
      let '(actions, injected) := injectBadge (doms retryCount) analysisResult retryCount in
      match scheduled_retry actions with
      | Some (next, _) =>
          r <- injectBadge_chain f doms analysisResult next ;;
          Some (actions ++ fst r, snd r)
      | None => Some (actions, injected)
      end
  end.

End BadgeManager.

(** ** content.js: what is read from the window and the document *)

Module Extraction.

(** [String.prototype.includes(searchString)]. *)
Definition includes (s p : jsstring) : bool :=
  match indexOf s p with Some _ => true | None => false end.

(** The pattern matching the characters of [s] one after the other,
    followed by [k]. *)
Fixpoint literal (s : jsstring) (k : regex) : regex :=
  match s with
  | [] => k
  | c :: s' => Seq (Char c) (literal s' k)
  end.

(** [\d]: the class of the ten digits, as the alternative of its
    members. *)
Definition digit : regex :=
  Alt (Char "0"%char) (Alt (Char "1"%char) (Alt (Char "2"%char)
  (Alt (Char "3"%char) (Alt (Char "4"%char) (Alt (Char "5"%char)
  (Alt (Char "6"%char) (Alt (Char "7"%char) (Alt (Char "8"%char)
  (Char "9"%char))))))))).

(** The pattern of [/\/jobs\/view\/\d+\/?/]. *)
Definition viewPattern : regex :=
  literal (str "/jobs/view/")
    (Seq (Quant digit 1 None) (Seq (Quant (Char "/"%char) 0 (Some 1)) Empty)).

(** [isLinkedInJobPage()], on [window.location.href] and
    [window.location.pathname]. *)
Definition isLinkedInJobPage (url path : jsstring) : bool :=
  if includes path (str "/jobs/search") && includes url (str "currentJobId=") then true
  else if match exec_compiled false viewPattern path 0 with
          | Some _ => true
          | None => false
          end then true
  else if includes path (str "/jobs/collections/") then true
  else false.

(** What [extractJobDescription] reads from the document: for each
    selector of its list, in order, the text
    ([textContent || innerText || '']) of each element found; and, when
    the main content element exists, the text of its clone after the
    removal of the excluded elements ([clone.textContent || '']). *)
Record Document := {
  selected : list (list jsstring);
  mainContent : option jsstring
}.

(** [extractJobDescription()]. *)
Definition extractJobDescription (document : Document) : option jsstring :=
  let collected :=
    flat_map (fun text =>
                if 100 <? List.length (trim text)
                then str " " ++ trim text
                else [])
             (List.concat (selected document)) in
  let descriptionText :=
    if negb (truthy (JSString (trim collected))) then
      match mainContent document with
      | Some text => text
      | None => collected
      end
    else collected in
  if truthy (JSString (trim descriptionText)) then Some (trim descriptionText)
  else None.

End Extraction.


(** ** Specification vocabulary *)

(** [p] occurs verbatim in [t]. *)
Definition is_substring (p t : jsstring) : Prop :=
  exists pre post, t = pre ++ p ++ post.

(** [y] is reached from [x] by consuming the code units [w]. *)
Definition extends (x y : cursor) (w : jsstring) : Prop :=
  before y = rev w ++ before x /\ after x = w ++ after y.

(** [y] is reached from [x] by consuming at least [n] code units. *)
Definition reach (n : nat) (x y : cursor) : Prop :=
  exists w, extends x y w /\ n <= List.length w.

Definition quant_bound (min : nat) (max : option nat) : nat :=
  match max with Some k => Nat.min min k | None => min end.

(** A lower bound on the number of code units a match of [r] consumes. *)
Fixpoint min_len (r : regex) : nat :=
  match r with
  | Char _ | Dot | Whitespace | NotClass _ => 1
  | Empty | WordBoundary | EndAnchor => 0
  | Seq r1 r2 => min_len r1 + min_len r2
  | Alt r1 r2 => Nat.min (min_len r1) (min_len r2)
  | Quant r' min max => quant_bound min max * min_len r'
  end.

(** The pattern compiles and cannot match the empty string. *)
Definition consuming (p : RegExp) : bool :=
  match compile (source p) with
  | Some r => 0 <? min_len r
  | None => false
  end.

(** The matches of one scan, as [findMatches] lists them: each starts at or
    after the end of the previous one, lies inside the subject, and its
    text is the slice of the subject it spans. *)
Fixpoint in_match_order (subject : jsstring) (from : nat)
    (ms : list Analyzer.Match) : Prop :=
  match ms with
  | [] => True
  | m :: rest =>
      from <= Analyzer.index m /\
      0 < Analyzer.length m /\
      Analyzer.index m + Analyzer.length m <= List.length subject /\
      Analyzer.text m =
        firstn (Analyzer.length m) (skipn (Analyzer.index m) subject) /\
      in_match_order subject (Analyzer.index m + Analyzer.length m) rest
  end.

Definition compiles (p : RegExp) : bool :=
  match compile (source p) with Some _ => true | None => false end.

(** The verdict [analyze] builds from the result [d] of the four scans. *)
Definition verdict_of (d : Analyzer.Details) : Analyzer.Verdict :=
  {| Analyzer.status := fst (fst (Analyzer.decide d));
     Analyzer.score := Analyzer.score_of d;
     Analyzer.confidence := snd (Analyzer.decide d);
     Analyzer.matchedKeywords :=
       Set_spread [] (Analyzer.strongPositive d ++ Analyzer.moderatePositive d ++
                      Analyzer.strongNegative d ++ Analyzer.moderateNegative d);
     Analyzer.message := snd (fst (Analyzer.decide d));
     Analyzer.details := Some d |}.

(** The inputs the guard of [analyze] rejects. *)
Definition unusable (v : JSValue) : Prop :=
  v = JSNull \/ v = JSString [] \/ typeof v <> str "string".

(** The tier precedence of the status decision, on the result of the scans. *)
Definition decided_by_precedence (d : Analyzer.Details) (v : Analyzer.Verdict) : Prop :=
  let sp := Analyzer.strongPositive d in
  let mp := Analyzer.moderatePositive d in
  let sn := Analyzer.strongNegative d in
  let mn := Analyzer.moderateNegative d in
  (sp <> [] ->
     Analyzer.status v = Analyzer.yes /\ Analyzer.confidence v = Analyzer.high) /\
  (sp = [] -> sn <> [] ->
     Analyzer.status v = Analyzer.no /\ Analyzer.confidence v = Analyzer.high) /\
  (sp = [] -> sn = [] -> mp <> [] ->
     Analyzer.status v = Analyzer.yes /\ Analyzer.confidence v = Analyzer.medium) /\
  (sp = [] -> sn = [] -> mp = [] -> mn <> [] ->
     Analyzer.status v = Analyzer.no /\ Analyzer.confidence v = Analyzer.medium) /\
  (sp = [] -> sn = [] -> mp = [] -> mn = [] ->
     Analyzer.status v = Analyzer.yes /\ Analyzer.confidence v = Analyzer.low).

(** [analyze] returns on the string [text], and its status and confidence
    follow the tier precedence over the matches the scans of [text] keep. *)
Definition resolves_by_precedence (text : jsstring) : Prop :=
  exists d v,
    Analyzer.scan text = Some d /\
    Analyzer.analyze (JSString text) = Some v /\
    decided_by_precedence d v.

(** Whether [analyze] drops the positive match [m] of [text]. *)
Definition suppressed (text : jsstring) (m : Analyzer.Match) : bool :=
  match Analyzer.isNegated text (Analyzer.index m) (Analyzer.length m) with
  | Some b => b
  | None => false
  end.

Definition surviving (text : jsstring) (ms : list Analyzer.Match) : list Analyzer.Match :=
  filter (fun m => negb (suppressed text m)) ms.

(** The evidence of one tier: for each pattern of the catalogue, in
    catalogue order, the texts of its matches in match order; for a positive
    tier only the matches that are not suppressed. *)
Definition tier_evidence (positive : bool) (patterns : list RegExp)
    (text : jsstring) (l : list jsstring) : Prop :=
  exists groups,
    l = List.concat groups /\
    Forall2 (fun p g =>
      exists ms, Analyzer.findMatches p text = Some ms /\
                 in_match_order text 0 ms /\
                 g = map Analyzer.text (if positive then surviving text ms else ms))
      patterns groups.

(** [r] followed by [t], for a pattern [r] read as a sequence of terms. *)
Fixpoint seq_append (r t : regex) : regex :=
  match r with
  | Empty => t
  | Seq r1 r2 => Seq r1 (seq_append r2 t)
  | _ => Seq r t
  end.

(** The compiled form of the suffix [[^.]{0,20}$]. *)
Definition window_suffix : regex :=
  Seq (Quant (NotClass ["."%char]) 0 (Some 20)) (Seq EndAnchor Empty).

Definition not_period (a : ascii) : bool := negb (Ascii.eqb a "."%char).

(** The code units from a cursor to the end of the subject fit the window:
    at most 20 of them, none a period. *)
Definition fits_window (tail : jsstring) : bool :=
  (List.length tail <=? 20) && forallb not_period tail.

(** The context [isNegated] inspects before a match at [matchIndex]. *)
Definition contextBefore (text : jsstring) (matchIndex : nat) : jsstring :=
  toLowerCase (substring text (Nat.max 0 (matchIndex - 50)) matchIndex).

(** A negation cue occurs in [ctx] and [tail] is what follows it up to the
    end of [ctx]. *)
Definition cue_before (ctx tail : jsstring) : Prop :=
  exists p r b e,
    In p Analyzer.NEGATION_PATTERNS /\ compile (source p) = Some r /\
    rev (before b) ++ after b = ctx /\
    In e (matcher true r b) /\ after e = tail.

Definition ends_with_word_char (s : jsstring) : bool :=
  word_before (Cursor (rev s) []).

Definition positive_patterns : list RegExp :=
  Analyzer.STRONG_POSITIVE_PATTERNS ++ Analyzer.MODERATE_POSITIVE_PATTERNS.

(** The suppression rule in the specification's words: every match of a
    positive pattern is suppressed when its context of at most 50 code
    units holds a negation cue with at most 20 code units between the cue
    and the match start. *)
Definition suppresses_cue_in_window (text : jsstring) : Prop :=
  forall p ms m tail,
    In p positive_patterns ->
    Analyzer.findMatches p text = Some ms -> In m ms ->
    cue_before (contextBefore text (Analyzer.index m)) tail ->
    List.length tail <= 20 ->
    suppressed text m = true.

(** The effects of a call that classified the description. *)
Definition reclassified (effects : list Content.Effect) : bool :=
  existsb (fun e => match e with
                    | Content.UpdateBadge _ | Content.InjectBadge _ => true
                    | _ => false
                    end) effects.

(** The effects of a call that scheduled a retry of [processJobPage]. *)
Definition retry_scheduled (effects : list Content.Effect) : bool :=
  existsb (fun e => match e with
                    | Content.SetTimeout (Content.ProcessJobPage _) _ => true
                    | _ => false
                    end) effects.

(** An idle monitor with the given stored identity. *)
Definition idle (storedId storedHash : option jsstring) : Content.State :=
  {| Content.currentJobId := storedId;
     Content.currentJobDescriptionHash := storedHash;
     Content.isProcessing := false |}.

(** A job page as one check observes it. *)
Definition job_page (jobId description : option jsstring) (badgePresent : bool)
    : Content.Page :=
  {| Content.isLinkedInJobPage := true;
     Content.extractJobId := jobId;
     Content.extractJobDescription := description;
     Content.badge := badgePresent |}.

(** The decision rule in the specification's words: the unforced check
    reclassifies exactly when the job id differs from the stored one, or
    the fingerprint differs from the stored one, or the badge is absent;
    and when nothing changed the stored identity stays as it is. *)
Definition change_detection_rule (storedId storedHash : option jsstring)
    (badgePresent : bool) (jobId description : option jsstring) : Prop :=
  exists st' effects,
    Content.processJobPage false (idle storedId storedHash)
      (job_page jobId description badgePresent) = Some (st', effects) /\
    (reclassified effects = true <->
       jobId <> storedId \/
       Content.hashJobDescription description <> storedHash \/
       badgePresent = false) /\
    (jobId = storedId -> Content.hashJobDescription description = storedHash ->
     badgePresent = true ->
     reclassified effects = false /\ st' = idle storedId storedHash).

(** The retry rule in the specification's words: a retry is scheduled only
    if the current job id equals the stored one, and the chain of retries
    ends. *)
Definition retry_tied_to_unchanged_job (force : bool) (st : Content.State)
    (pg : Content.Page) : Prop :=
  (forall st' effects,
     Content.processJobPage force st pg = Some (st', effects) ->
     retry_scheduled effects = true ->
     Content.extractJobId pg = Content.currentJobId st) /\
  (exists n st' effects,
     Content.after_retries n force st pg = Some (st', effects) /\
     retry_scheduled effects = false).

(** The fingerprint in the specification's words: two extracted (trimmed,
    non-empty) descriptions that differ have different fingerprints. *)
Definition fingerprint_separates (a b : jsstring) : Prop :=
  a <> [] -> b <> [] -> trim a = a -> trim b = b -> a <> b ->
  Content.hashJobDescription (Some a) <> Content.hashJobDescription (Some b).

(** The preview part of the fingerprint. *)
Definition preview (t : jsstring) : jsstring := trim (substring t 0 200).

(** The pattern [p] matches in [text] starting at index [i]. *)
Definition matches_at (p : RegExp) (text : jsstring) (i : nat) : Prop :=
  i <= List.length text /\
  exists r, compile (source p) = Some r /\
            matcher (ignoreCase p) r (cursor_at text i) <> [].

(** No white space at either end. *)
Definition trimmed (s : jsstring) : Prop :=
  trimStart s = s /\ trimStart (rev s) = rev s.

(** The page [pg] with the badge present or absent. *)
Definition with_badge (pg : Content.Page) (present : bool) : Content.Page :=
  {| Content.isLinkedInJobPage := Content.isLinkedInJobPage pg;
     Content.extractJobId := Content.extractJobId pg;
     Content.extractJobDescription := Content.extractJobDescription pg;
     Content.badge := present |}.

(** The state [processJobPage] stores when it has classified the page. *)
Definition synchronised (pg : Content.Page) : Content.State :=
  {| Content.currentJobId := Content.extractJobId pg;
     Content.currentJobDescriptionHash :=
       Content.hashJobDescription (Content.extractJobDescription pg);
     Content.isProcessing := false |}.

(** The effects of a call of [processJobPage] that classified the page
    with the verdict [v]. *)
Definition rendering (pg : Content.Page) (v : Analyzer.Verdict) : list Content.Effect :=
  [ if Content.badge pg then Content.UpdateBadge v else Content.InjectBadge v;
    match Analyzer.status v with
    | Analyzer.no =>
        Content.SetTimeout (Content.Highlight v (Content.extractJobDescription pg)) 100
    | _ => Content.RemoveHighlights
    end ].

(** The sum of the delays of the retries scheduled in a list of actions. *)
Fixpoint total_delay (actions : list BadgeManager.Action) : nat :=
  match actions with
  | [] => 0
  | BadgeManager.SetTimeout_injectBadge _ _ delay :: rest => delay + total_delay rest
  | _ :: rest => total_delay rest
  end.

(** Lower-casing of a cursor, of a match and of the tier lists. *)
Definition lower_cursor (x : cursor) : cursor :=
  Cursor (toLowerCase (before x)) (toLowerCase (after x)).

Definition lower_ends (m : cursor * cursor) : cursor * cursor :=
  (lower_cursor (fst m), lower_cursor (snd m)).

Definition lower_match (m : Analyzer.Match) : Analyzer.Match :=
  {| Analyzer.text := toLowerCase (Analyzer.text m);
     Analyzer.index := Analyzer.index m;
     Analyzer.length := Analyzer.length m |}.

Definition lower_details (d : Analyzer.Details) : Analyzer.Details :=
  {| Analyzer.strongPositive := map toLowerCase (Analyzer.strongPositive d);
     Analyzer.moderatePositive := map toLowerCase (Analyzer.moderatePositive d);
     Analyzer.strongNegative := map toLowerCase (Analyzer.strongNegative d);
     Analyzer.moderateNegative := map toLowerCase (Analyzer.moderateNegative d) |}.

(** ** Properties of the matcher *)

Lemma extends_refl x : extends x x [].
Proof. split; reflexivity. Qed.

Lemma extends_trans x y z w1 w2 :
  extends x y w1 -> extends y z w2 -> extends x z (w1 ++ w2).
Proof.
  intros [Hb1 Ha1] [Hb2 Ha2]. split.
  - rewrite Hb2, Hb1, rev_app_distr, app_assoc. reflexivity.
  - rewrite Ha1, Ha2, app_assoc. reflexivity.
Qed.

Lemma reach_refl x : reach 0 x x.
Proof. exists []. split; [apply extends_refl | simpl; lia]. Qed.

Lemma reach_trans n1 n2 x y z :
  reach n1 x y -> reach n2 y z -> reach (n1 + n2) x z.
Proof.
  intros (w1 & E1 & L1) (w2 & E2 & L2). exists (w1 ++ w2). split.
  - eapply extends_trans; eassumption.
  - rewrite length_app. lia.
Qed.

Lemma reach_weaken n m x y : m <= n -> reach n x y -> reach m x y.
Proof. intros Hle (w & E & L). exists w. split; [assumption | lia]. Qed.

Lemma reach_position n x y : reach n x y -> position x + n <= position y.
Proof.
  intros (w & [Hb _] & L). unfold position. rewrite Hb, length_app, length_rev. lia.
Qed.

Lemma reach_text n x y :
  reach n x y -> rev (before y) ++ after y = rev (before x) ++ after x.
Proof.
  intros (w & [Hb Ha] & _). rewrite Hb, Ha, rev_app_distr, rev_involutive, <- app_assoc.
  reflexivity.
Qed.

Lemma advance_reach p x y : In y (advance p x) -> reach 1 x y.
Proof.
  unfold advance. destruct x as [b [|a rest]]; simpl; [tauto|].
  destruct (p a); simpl; [|tauto]. intros [<-|[]].
  exists [a]. split; [split; reflexivity | simpl; lia].
Qed.

Lemma quant_bound_step min max :
  max <> Some 0 ->
  quant_bound min max <= S (quant_bound (pred min) (option_map pred max)).
Proof. destruct max as [[|k]|]; simpl; intros; try congruence; lia. Qed.

Lemma repeat_matcher_reach (m : cursor -> list cursor) k :
  (forall x y, In y (m x) -> reach k x y) ->
  forall fuel min max x y,
    In y (repeat_matcher m fuel min max x) -> reach (quant_bound min max * k) x y.
Proof.
  intros Hm. induction fuel as [|f IH]; intros min max x y; simpl; [tauto|].
  assert (Hagain : forall y,
    In y (flat_map (fun z => if (min =? 0) && (position z =? position x) then []
                             else repeat_matcher m f (pred min) (option_map pred max) z) (m x)) ->
    max <> Some 0 -> reach (quant_bound min max * k) x y).
  { intros y' Hin Hmax. apply in_flat_map in Hin. destruct Hin as (z & Hz & Hy).
    destruct ((min =? 0) && (position z =? position x)); [destruct Hy|].
    apply IH in Hy. apply Hm in Hz.
    eapply reach_weaken; [|eapply reach_trans; eassumption].
    pose proof (quant_bound_step min Hmax). nia. }
  assert (Hzero : reach (quant_bound 0 max * k) x x).
  { replace (quant_bound 0 max) with 0 by (destruct max; reflexivity). apply reach_refl. }
  destruct max as [[|j]|].
  - intros [<-|[]]. replace (quant_bound min (Some 0)) with 0 by (simpl; lia). apply reach_refl.
  - destruct (Nat.eqb_spec min 0) as [->|Hne]; intros Hin.
    + apply in_app_or in Hin. destruct Hin as [Hin|[<-|[]]]; [|exact Hzero].
      apply Hagain; [exact Hin | discriminate].
    + apply Hagain; [exact Hin | discriminate].
  - destruct (Nat.eqb_spec min 0) as [->|Hne]; intros Hin.
    + apply in_app_or in Hin. destruct Hin as [Hin|[<-|[]]]; [|exact Hzero].
      apply Hagain; [exact Hin | discriminate].
    + apply Hagain; [exact Hin | discriminate].
Qed.

Lemma matcher_reach ic r :
  forall x y, In y (matcher ic r x) -> reach (min_len r) x y.
Proof.
  induction r as [|c| | |cs| | |r1 IH1 r2 IH2|r1 IH1 r2 IH2|r IH min max];
    intros x y; cbn [matcher min_len].
  - intros [<-|[]]. apply reach_refl.
  - apply advance_reach.
  - apply advance_reach.
  - apply advance_reach.
  - apply advance_reach.
  - destruct (xorb _ _); [intros [<-|[]]; apply reach_refl | intros []].
  - destruct (after x); [intros [<-|[]]; apply reach_refl | intros []].
  - intros Hin. apply in_flat_map in Hin. destruct Hin as (z & Hz & Hy).
    eapply reach_trans; eauto.
  - intros Hin. apply in_app_or in Hin.
    destruct Hin as [Hin|Hin]; [apply IH1 in Hin | apply IH2 in Hin];
      (eapply reach_weaken; [|eassumption]); lia.
  - apply repeat_matcher_reach. exact IH.
Qed.

Lemma flat_map_ext_in {A B} (f g : A -> list B) l :
  (forall a, In a l -> f a = g a) -> flat_map f l = flat_map g l.
Proof.
  induction l as [|a l IH]; intros H; simpl; [reflexivity|].
  rewrite (H a) by (left; reflexivity). rewrite IH; [reflexivity|].
  intros b Hb. apply H. right. exact Hb.
Qed.

Lemma reach_after n x y :
  reach n x y -> List.length (after y) + n <= List.length (after x).
Proof. intros (w & [_ Ha] & L). rewrite Ha, length_app. lia. Qed.

Lemma reach_same_position x y :
  reach 0 x y -> position y <> position x ->
  List.length (after y) < List.length (after x).
Proof.
  intros (w & [Hb Ha] & _) Hp. unfold position in Hp.
  rewrite Hb, length_app, length_rev in Hp. rewrite Ha, length_app.
  destruct w; simpl in *; lia.
Qed.

(** The fuel of [repeat_matcher] is never exhausted: from
    [min + length (after x)] upwards the result does not depend on it. *)
Lemma repeat_matcher_fuel (m : cursor -> list cursor) :
  (forall x y, In y (m x) -> reach 0 x y) ->
  forall fuel1 fuel2 min max x,
    min + List.length (after x) < fuel1 ->
    min + List.length (after x) < fuel2 ->
    repeat_matcher m fuel1 min max x = repeat_matcher m fuel2 min max x.
Proof.
  intros Hm. induction fuel1 as [|f1 IH]; intros fuel2 min max x H1 H2; [lia|].
  destruct fuel2 as [|f2]; [lia|]. cbn [repeat_matcher].
  assert (Hagain :
    flat_map (fun y => if (min =? 0) && (position y =? position x) then []
                       else repeat_matcher m f1 (pred min) (option_map pred max) y) (m x) =
    flat_map (fun y => if (min =? 0) && (position y =? position x) then []
                       else repeat_matcher m f2 (pred min) (option_map pred max) y) (m x)).
  { apply flat_map_ext_in. intros y Hy. apply Hm in Hy.
    destruct (Nat.eqb_spec min 0) as [->|Hmin]; cbn [andb].
    - destruct (Nat.eqb_spec (position y) (position x)) as [_|Hp]; [reflexivity|].
      pose proof (reach_same_position Hy Hp). apply IH; simpl in *; lia.
    - pose proof (reach_after Hy). apply IH; lia. }
  rewrite Hagain. reflexivity.
Qed.

Lemma matcher_quant_fuel ic r min max x fuel :
  min + List.length (after x) < fuel ->
  matcher ic (Quant r min max) x = repeat_matcher (matcher ic r) fuel min max x.
Proof.
  intros H. cbn [matcher]. apply repeat_matcher_fuel; [|lia|exact H].
  intros a b Hb. apply matcher_reach in Hb.
  eapply reach_weaken; [|exact Hb]. lia.
Qed.

Lemma search_sound ic r : forall aft bef b e,
  search ic r bef aft = Some (b, e) ->
  (exists skipped, extends (Cursor bef aft) b skipped) /\ In e (matcher ic r b).
Proof.
  induction aft as [|a rest IH]; intros bef b e; simpl.
  - destruct (matcher ic r (Cursor bef [])) as [|e' l] eqn:Hm; [discriminate|].
    intros [= <- <-]. split; [exists []; apply extends_refl | rewrite Hm; left; reflexivity].
  - destruct (matcher ic r (Cursor bef (a :: rest))) as [|e' l] eqn:Hm.
    + intros Hs. apply IH in Hs. destruct Hs as [(sk & Hb & Ha) Hin]. split; [|exact Hin].
      exists (a :: sk). simpl in *. split; simpl.
      * rewrite Hb, <- app_assoc. reflexivity.
      * rewrite Ha. reflexivity.
    + intros [= <- <-]. split; [exists []; apply extends_refl | rewrite Hm; left; reflexivity].
Qed.

Lemma cursor_at_text text i :
  rev (before (cursor_at text i)) ++ after (cursor_at text i) = text.
Proof. simpl. rewrite rev_involutive. apply firstn_skipn. Qed.

Lemma cursor_at_position text i :
  i <= List.length text -> position (cursor_at text i) = i.
Proof. intros H. unfold position. simpl. rewrite length_rev, length_firstn. lia. Qed.

(** What a successful [exec] call returns: the match starts at or after
    [lastIndex], lies inside the subject, and spans at least [min_len]
    code units. *)
Lemma exec_sound p r text i b e :
  compile (source p) = Some r ->
  exec p text i = Some (Some (b, e)) ->
  i <= position b /\ position b + min_len r <= position e /\
  position e <= List.length text /\
  rev (before b) ++ after b = text /\ rev (before e) ++ after e = text.
Proof.
  unfold exec. intros -> . simpl.
  destruct (Nat.leb_spec i (List.length text)) as [Hi|Hi]; [|discriminate].
  intros [= Hs]. apply search_sound in Hs. destruct Hs as [(sk & Hsk) Hin].
  apply matcher_reach in Hin.
  assert (Hr : reach 0 (cursor_at text i) b).
  { exists sk. split; [|lia]. destruct Hsk as [Hb Ha]. split; simpl in *; assumption. }
  pose proof (reach_position Hr) as P1. pose proof (reach_position Hin) as P2.
  pose proof (reach_text Hr) as T1. pose proof (reach_text Hin) as T2.
  rewrite cursor_at_text in T1. rewrite T1 in T2.
  rewrite cursor_at_position in P1 by assumption.
  repeat split; try lia; try assumption.
  rewrite <- T2. unfold position. rewrite length_app, length_rev. lia.
Qed.

(** ** Properties of [substring] *)

Lemma slice_is_substring (s : jsstring) lo n : is_substring (firstn n (skipn lo s)) s.
Proof.
  exists (firstn lo s), (skipn n (skipn lo s)).
  rewrite firstn_skipn, firstn_skipn. reflexivity.
Qed.

Lemma substring_is_substring s a b : is_substring (substring s a b) s.
Proof. unfold substring. cbv zeta. apply slice_is_substring. Qed.

Lemma substring_in_range s a b :
  a <= b -> b <= List.length s -> substring s a b = firstn (b - a) (skipn a s).
Proof.
  intros Hab Hb. unfold substring.
  rewrite (Nat.min_l a) by lia. rewrite (Nat.min_l b) by lia.
  rewrite Nat.min_l by lia. rewrite Nat.max_r by lia. reflexivity.
Qed.

Lemma substring_length s a b :
  a <= b -> b <= List.length s -> List.length (substring s a b) = b - a.
Proof.
  intros Hab Hb. rewrite substring_in_range by assumption.
  rewrite length_firstn, length_skipn. lia.
Qed.

Lemma is_substring_refl s : is_substring s s.
Proof. exists [], []. rewrite app_nil_r. reflexivity. Qed.


(** ** Termination and results of [findMatches] *)

Lemma consuming_compiles p :
  consuming p = true -> exists r, compile (source p) = Some r /\ 0 < min_len r.
Proof.
  unfold consuming. destruct (compile (source p)) as [r|]; [|discriminate].
  intros H. exists r. split; [reflexivity | apply Nat.ltb_lt; exact H].
Qed.

Lemma findMatches_loop_total p r text :
  compile (source p) = Some r -> 0 < min_len r ->
  forall fuel i, i <= List.length text -> List.length text < fuel + i ->
    exists ms, Analyzer.findMatches_loop fuel p text i = Some ms.
Proof.
  intros Hc Hr. induction fuel as [|f IH]; intros i Hi Hf; [simpl in Hf; lia|].
  cbn [Analyzer.findMatches_loop].
  destruct (exec p text i) as [[[b e]|]|] eqn:He.
  - destruct (@exec_sound _ _ _ _ _ _ Hc He) as (H1 & H2 & H3 & _).
    destruct (IH (position e)) as [ms Hms]; [lia | lia |].
    simpl. rewrite Hms. simpl. eexists. reflexivity.
  - simpl. eexists. reflexivity.
  - unfold exec in He. rewrite Hc in He. discriminate.
Qed.

Lemma findMatches_loop_order p r text :
  compile (source p) = Some r -> 0 < min_len r ->
  forall fuel i ms,
    Analyzer.findMatches_loop fuel p text i = Some ms ->
    in_match_order text i ms.
Proof.
  intros Hc Hr. induction fuel as [|f IH]; intros i ms; [discriminate|].
  cbn [Analyzer.findMatches_loop].
  destruct (exec p text i) as [[[b e]|]|] eqn:He; simpl; [| intros [= <-]; exact I | discriminate].
  destruct (Analyzer.findMatches_loop f p text (position e)) as [rest|] eqn:Hrest;
    simpl; [|discriminate].
  intros [= <-]. destruct (@exec_sound _ _ _ _ _ _ Hc He) as (H1 & H2 & H3 & _).
  apply IH in Hrest. cbn [in_match_order Analyzer.index Analyzer.length Analyzer.text].
  rewrite substring_length by lia.
  replace (position b + (position e - position b)) with (position e) by lia.
  repeat split; try lia; try assumption.
  apply substring_in_range; lia.
Qed.

Lemma findMatches_total p text :
  consuming p = true -> exists ms, Analyzer.findMatches p text = Some ms.
Proof.
  intros Hp. apply consuming_compiles in Hp. destruct Hp as (r & Hc & Hr).
  unfold Analyzer.findMatches.
  apply findMatches_loop_total with (r := r); try lia.
  destruct (global p); exact Hc.
Qed.

Lemma findMatches_order p text ms :
  consuming p = true -> Analyzer.findMatches p text = Some ms ->
  in_match_order text 0 ms.
Proof.
  intros Hp. apply consuming_compiles in Hp. destruct Hp as (r & Hc & Hr).
  unfold Analyzer.findMatches.
  apply findMatches_loop_order with (r := r); try lia.
  destruct (global p); exact Hc.
Qed.

(** Every text pushed by [findMatches] is a slice of the subject, whatever
    the pattern. *)
Lemma findMatches_loop_substring p text :
  forall fuel i ms,
    Analyzer.findMatches_loop fuel p text i = Some ms ->
    Forall (fun m => is_substring (Analyzer.text m) text) ms.
Proof.
  induction fuel as [|f IH]; intros i ms; [discriminate|].
  cbn [Analyzer.findMatches_loop].
  destruct (exec p text i) as [[[b e]|]|]; simpl; [| intros [= <-]; constructor | discriminate].
  destruct (Analyzer.findMatches_loop f p text (position e)) as [rest|] eqn:Hrest;
    simpl; [|discriminate].
  intros [= <-]. constructor; [apply substring_is_substring | eapply IH; eassumption].
Qed.

Lemma findMatches_substring p text ms :
  Analyzer.findMatches p text = Some ms ->
  Forall (fun m => is_substring (Analyzer.text m) text) ms.
Proof. apply findMatches_loop_substring. Qed.

(** ** The catalogues are well formed *)

Lemma catalogue_consuming :
  forallb consuming
    (Analyzer.STRONG_POSITIVE_PATTERNS ++ Analyzer.MODERATE_POSITIVE_PATTERNS ++
     Analyzer.STRONG_NEGATIVE_PATTERNS ++ Analyzer.MODERATE_NEGATIVE_PATTERNS) = true.
Proof. vm_compute. reflexivity. Qed.

Lemma negation_patterns_compile :
  forallb (fun p => compiles p && compiles (Analyzer.close_to_end p))
    Analyzer.NEGATION_PATTERNS = true.
Proof. vm_compute. reflexivity. Qed.

Lemma strong_positive_consuming p :
  In p Analyzer.STRONG_POSITIVE_PATTERNS -> consuming p = true.
Proof.
  intros H. pose proof catalogue_consuming as C. rewrite forallb_forall in C.
  apply C. apply in_or_app. left. exact H.
Qed.

Lemma moderate_positive_consuming p :
  In p Analyzer.MODERATE_POSITIVE_PATTERNS -> consuming p = true.
Proof.
  intros H. pose proof catalogue_consuming as C. rewrite forallb_forall in C.
  apply C. apply in_or_app. right. apply in_or_app. left. exact H.
Qed.

Lemma strong_negative_consuming p :
  In p Analyzer.STRONG_NEGATIVE_PATTERNS -> consuming p = true.
Proof.
  intros H. pose proof catalogue_consuming as C. rewrite forallb_forall in C.
  apply C. apply in_or_app. right. apply in_or_app. right. apply in_or_app. left. exact H.
Qed.

Lemma moderate_negative_consuming p :
  In p Analyzer.MODERATE_NEGATIVE_PATTERNS -> consuming p = true.
Proof.
  intros H. pose proof catalogue_consuming as C. rewrite forallb_forall in C.
  apply C. apply in_or_app. right. apply in_or_app. right. apply in_or_app. right. exact H.
Qed.

(** ** Totality of the scans *)

Lemma test_total p s : compiles p = true -> exists b, test p s = Some b.
Proof.
  unfold compiles, test, exec. destruct (compile (source p)); [|discriminate].
  intros _. simpl. eexists. reflexivity.
Qed.

Lemma String_match_total p s :
  compiles p = true -> exists m, String_match s p = Some m.
Proof.
  unfold compiles, String_match, exec. destruct (compile (source p)); [|discriminate].
  intros _. simpl. eexists. reflexivity.
Qed.

Lemma isNegated_from_total ctx : forall patterns,
  forallb (fun p => compiles p && compiles (Analyzer.close_to_end p)) patterns = true ->
  exists b, Analyzer.isNegated_from patterns ctx = Some b.
Proof.
  induction patterns as [|p rest IH]; simpl; intros H.
  - eexists. reflexivity.
  - apply andb_prop in H. destruct H as [Hp Hrest]. apply andb_prop in Hp.
    destruct Hp as [Hp1 Hp2].
    destruct (test_total p ctx Hp1) as [b ->]. simpl.
    destruct (String_match_total _ ctx Hp2) as [m ->]. simpl.
    destruct b; [destruct m|]; auto. eexists. reflexivity.
Qed.

Lemma isNegated_total text i n : exists b, Analyzer.isNegated text i n = Some b.
Proof. apply isNegated_from_total. exact negation_patterns_compile. Qed.

Lemma push_unless_negated_total text : forall ms,
  exists l, Analyzer.push_unless_negated text ms = Some l.
Proof.
  induction ms as [|m rest [l IH]]; simpl.
  - eexists. reflexivity.
  - destruct (isNegated_total text (Analyzer.index m) (Analyzer.length m)) as [b ->].
    rewrite IH. simpl. eexists. reflexivity.
Qed.

Lemma scan_positive_total text : forall patterns,
  (forall p, In p patterns -> consuming p = true) ->
  exists l, Analyzer.scan_positive patterns text = Some l.
Proof.
  induction patterns as [|p rest IH]; intros H; simpl.
  - eexists. reflexivity.
  - destruct (findMatches_total p text) as [ms ->]; [apply H; left; reflexivity|].
    cbn [bind].
    destruct (push_unless_negated_total text ms) as [l ->]. cbn [bind].
    destruct IH as [l' ->]; [intros q Hq; apply H; right; exact Hq|].
    simpl. eexists. reflexivity.
Qed.

Lemma scan_negative_total text : forall patterns,
  (forall p, In p patterns -> consuming p = true) ->
  exists l, Analyzer.scan_negative patterns text = Some l.
Proof.
  induction patterns as [|p rest IH]; intros H; simpl.
  - eexists. reflexivity.
  - destruct (findMatches_total p text) as [ms ->]; [apply H; left; reflexivity|].
    cbn [bind].
    destruct IH as [l' ->]; [intros q Hq; apply H; right; exact Hq|].
    simpl. eexists. reflexivity.
Qed.

(** The four scans of [analyze] return on every text. *)
Lemma scan_total text : exists d, Analyzer.scan text = Some d.
Proof.
  unfold Analyzer.scan.
  destruct (scan_positive_total text _ strong_positive_consuming) as [sp ->].
  destruct (scan_positive_total text _ moderate_positive_consuming) as [mp ->].
  destruct (scan_negative_total text _ strong_negative_consuming) as [sn ->].
  destruct (scan_negative_total text _ moderate_negative_consuming) as [mn ->].
  cbn [bind]. eexists. reflexivity.
Qed.

(** ** The verdict of [analyze] *)

Lemma typeof_string v :
  jsstring_eqb (typeof v) (str "string") = true -> exists s, v = JSString s.
Proof.
  destruct v as [| |b|x|z|s|d|c]; try (vm_compute; discriminate).
  - intros _. exists s. reflexivity.
  - destruct c; vm_compute; discriminate.
Qed.

Lemma analyze_unusable v : unusable v -> Analyzer.analyze v = Some Analyzer.no_description.
Proof.
  intros [->|[->|H]]; try reflexivity.
  unfold Analyzer.analyze.
  destruct (jsstring_eqb (typeof v) (str "string")) eqn:E.
  - apply typeof_string in E. destruct E as [s ->]. exfalso. apply H. reflexivity.
  - rewrite orb_true_r. reflexivity.
Qed.

Lemma analyze_string text d :
  text <> [] -> Analyzer.scan text = Some d ->
  Analyzer.analyze (JSString text) = Some (verdict_of d).
Proof.
  intros Hne Hs. unfold Analyzer.analyze.
  destruct text as [|c text]; [congruence|].
  replace (negb (truthy (JSString (c :: text))) ||
           negb (jsstring_eqb (typeof (JSString (c :: text))) (str "string")))
    with false by reflexivity.
  cbn [Analyzer.string_of]. rewrite Hs. cbn [bind]. unfold verdict_of.
  destruct (Analyzer.decide d) as [[s m] c']. reflexivity.
Qed.

(** [analyze] returns on every value: either the input is rejected by the
    guard, or it is a non-empty string and the verdict is built from the
    scans. *)
Lemma analyze_cases v :
  (unusable v /\ Analyzer.analyze v = Some Analyzer.no_description) \/
  (exists text d, v = JSString text /\ text <> [] /\ Analyzer.scan text = Some d /\
                  Analyzer.analyze v = Some (verdict_of d)).
Proof.
  assert (Hu : forall w, unusable w ->
            unusable w /\ Analyzer.analyze w = Some Analyzer.no_description).
  { intros w Hw. split; [exact Hw | apply analyze_unusable; exact Hw]. }
  destruct v as [| |b|x|z|s|d|c];
    try (left; apply Hu; right; right; vm_compute; discriminate).
  - destruct s as [|a s].
    + left. apply Hu. right. left. reflexivity.
    + right. destruct (scan_total (a :: s)) as [d Hd].
      exists (a :: s), d. repeat split; [discriminate | exact Hd |].
      apply analyze_string; [discriminate | exact Hd].
  - left. apply Hu. right. right. destruct c; vm_compute; discriminate.
Qed.

Lemma nonempty_true {A} (l : list A) : Analyzer.nonempty l = true <-> l <> [].
Proof. destruct l; simpl; split; congruence. Qed.

Lemma nonempty_false {A} (l : list A) : Analyzer.nonempty l = false <-> l = [].
Proof. destruct l; simpl; split; congruence. Qed.

Lemma decide_precedence d : decided_by_precedence d (verdict_of d).
Proof.
  unfold decided_by_precedence, verdict_of, Analyzer.decide. cbn [Analyzer.status Analyzer.confidence].
  destruct (Analyzer.strongPositive d), (Analyzer.strongNegative d),
    (Analyzer.moderatePositive d), (Analyzer.moderateNegative d);
    cbn; repeat split; intros; congruence.
Qed.

(** C1, as the claim states it, fails on the empty string: no rule matches
    it, yet the guard of [analyze] answers unclear, not yes. *)
Lemma precedence_fails_on_empty_string : ~ resolves_by_precedence [].
Proof.
  intros (d & v & Hs & Ha & _ & _ & _ & _ & Hlow).
  vm_compute in Hs. injection Hs as <-.
  vm_compute in Ha. injection Ha as <-.
  destruct Hlow as [Hy _]; try reflexivity. discriminate Hy.
Qed.

(** C1 (amended): for every non-empty string, [analyze] returns and resolves
    status and confidence by tier precedence: a surviving StrongPositive
    match gives yes/high even beside StrongNegative matches; otherwise a
    StrongNegative match gives no/high; otherwise a surviving
    ModeratePositive match gives yes/medium; otherwise a ModerateNegative
    match gives no/medium; and with no match at all the result is
    yes/low. *)
Theorem analyze_tier_precedence (text : jsstring) :
  text <> [] -> resolves_by_precedence text.
Proof.
  intros Hne. destruct (scan_total text) as [d Hd].
  exists d, (verdict_of d). split; [exact Hd|]. split.
  - apply analyze_string; assumption.
  - apply decide_precedence.
Qed.

Lemma analyze_tier_precedence_witness :
  str "We offer visa sponsorship. No sponsorship for contractors." <> [] /\
  resolves_by_precedence (str "We offer visa sponsorship. No sponsorship for contractors.").
Proof.
  split; [discriminate | apply analyze_tier_precedence; discriminate].
Defined.

(** C2: [analyze] returns a verdict on every value, and on null, the empty
    string and every non-string value that verdict is unclear with low
    confidence and no matched keywords. *)
Theorem analyze_rejects_unusable_input (v : JSValue) :
  (exists r, Analyzer.analyze v = Some r) /\
  (unusable v ->
   exists r, Analyzer.analyze v = Some r /\
             Analyzer.status r = Analyzer.unclear /\
             Analyzer.confidence r = Analyzer.low /\
             Analyzer.matchedKeywords r = []).
Proof.
  split.
  - destruct (analyze_cases v) as [[_ H]|(text & d & _ & _ & _ & H)]; eauto.
  - intros H. exists Analyzer.no_description.
    split; [apply analyze_unusable; exact H | repeat split].
Qed.

Lemma analyze_rejects_unusable_input_witness :
  unusable (JSNumber S754_nan) /\
  exists r, Analyzer.analyze (JSNumber S754_nan) = Some r /\
            Analyzer.status r = Analyzer.unclear /\
            Analyzer.confidence r = Analyzer.low /\
            Analyzer.matchedKeywords r = [].
Proof.
  assert (H : unusable (JSNumber S754_nan)).
  { right. right. vm_compute. discriminate. }
  split; [exact H | exact (proj2 (analyze_rejects_unusable_input (JSNumber S754_nan)) H)].
Defined.

(** C10: [analyze] returns on every value, and the status of the verdict is
    unclear exactly when the input is null, the empty string or not a
    string; on a non-empty string the status is yes or no. *)
Theorem analyze_unclear_iff_unusable (v : JSValue) :
  exists r, Analyzer.analyze v = Some r /\
    (Analyzer.status r = Analyzer.unclear <-> unusable v) /\
    (forall text, v = JSString text -> text <> [] ->
       Analyzer.status r = Analyzer.yes \/ Analyzer.status r = Analyzer.no).
Proof.
  assert (Hd : forall d, Analyzer.status (verdict_of d) = Analyzer.yes \/
                         Analyzer.status (verdict_of d) = Analyzer.no).
  { intros d. unfold verdict_of, Analyzer.decide. cbn [Analyzer.status].
    destruct (Analyzer.nonempty _); [left; reflexivity|].
    destruct (Analyzer.nonempty _); [right; reflexivity|].
    destruct (Analyzer.nonempty _); [left; reflexivity|].
    destruct (Analyzer.nonempty _); [right; reflexivity | left; reflexivity]. }
  destruct (analyze_cases v) as [[Hu H]|(text & d & -> & Hne & Hs & H)].
  - exists Analyzer.no_description. split; [exact H|]. split.
    + split; [intros _; exact Hu | reflexivity].
    + intros text -> Hne. destruct Hu as [Hu|[Hu|Hu]]; try congruence.
      exfalso. apply Hu. reflexivity.
  - exists (verdict_of d). split; [exact H|]. split.
    + split.
      * intros Hun. destruct (Hd d) as [E|E]; congruence.
      * intros [Hu|[Hu|Hu]]; try congruence. exfalso. apply Hu. reflexivity.
    + intros _ _ _. apply Hd.
Qed.

Lemma analyze_unclear_iff_unusable_witness :
  exists r, Analyzer.analyze (JSString (str "US citizens only")) = Some r /\
    (Analyzer.status r = Analyzer.unclear <-> unusable (JSString (str "US citizens only"))) /\
    (forall text, JSString (str "US citizens only") = JSString text -> text <> [] ->
       Analyzer.status r = Analyzer.yes \/ Analyzer.status r = Analyzer.no).
Proof. exact (analyze_unclear_iff_unusable (JSString (str "US citizens only"))). Defined.

(** C5: in a verdict of [analyze], status yes never goes with a
    StrongNegative entry unless a StrongPositive entry is present too, which
    then decided the status with high confidence; so a non-empty
    strongNegative list beside an empty strongPositive list excludes
    yes. *)
Theorem yes_with_strong_negative_needs_strong_positive (text : jsstring) :
  exists v, Analyzer.analyze (JSString text) = Some v /\
    forall d, Analyzer.details v = Some d ->
      (Analyzer.strongNegative d <> [] -> Analyzer.strongPositive d = [] ->
       Analyzer.status v <> Analyzer.yes) /\
      (Analyzer.status v = Analyzer.yes -> Analyzer.strongNegative d <> [] ->
       Analyzer.strongPositive d <> [] /\ Analyzer.confidence v = Analyzer.high).
Proof.
  destruct (analyze_cases (JSString text)) as [[_ H]|(t & d & [= <-] & Hne & Hs & H)].
  - exists Analyzer.no_description. split; [exact H|]. intros d [=].
  - exists (verdict_of d). split; [exact H|]. intros d' [= <-].
    destruct (decide_precedence d) as (P1 & P2 & _). split.
    + intros Hsn Hsp. destruct (P2 Hsp Hsn) as [E _]. rewrite E. discriminate.
    + intros Hy Hsn. destruct (Analyzer.strongPositive d) eqn:Hsp.
      * destruct (P2 eq_refl Hsn) as [E _]. congruence.
      * split; [discriminate | apply P1; discriminate].
Qed.

Lemma yes_with_strong_negative_needs_strong_positive_witness :
  exists v, Analyzer.analyze (JSString (str "We will sponsor. US citizens only.")) = Some v /\
    forall d, Analyzer.details v = Some d ->
      (Analyzer.strongNegative d <> [] -> Analyzer.strongPositive d = [] ->
       Analyzer.status v <> Analyzer.yes) /\
      (Analyzer.status v = Analyzer.yes -> Analyzer.strongNegative d <> [] ->
       Analyzer.strongPositive d <> [] /\ Analyzer.confidence v = Analyzer.high).
Proof.
  exact (yes_with_strong_negative_needs_strong_positive
           (str "We will sponsor. US citizens only.")).
Defined.

(** ** Evidence lists *)

Lemma jsstring_eqb_eq a b : jsstring_eqb a b = true <-> a = b.
Proof. unfold jsstring_eqb. destruct (jsstring_eq_dec a b); split; congruence. Qed.

Lemma seen_spec x seen : existsb (jsstring_eqb x) seen = true <-> In x seen.
Proof.
  rewrite existsb_exists. split.
  - intros (y & Hy & E). apply jsstring_eqb_eq in E. subst. exact Hy.
  - intros H. exists x. split; [exact H | apply jsstring_eqb_eq; reflexivity].
Qed.

Lemma Set_spread_in x : forall array seen,
  In x (Set_spread seen array) <-> In x array /\ ~ In x seen.
Proof.
  induction array as [|y rest IH]; intros seen; simpl; [tauto|].
  destruct (existsb (jsstring_eqb y) seen) eqn:E.
  - apply seen_spec in E. rewrite IH. split.
    + intros [H1 H2]. tauto.
    + intros [[->|H1] H2]; tauto.
  - assert (Hy : ~ In y seen) by (rewrite <- seen_spec, E; discriminate).
    simpl. rewrite IH. simpl. split.
    + intros [->|[H1 H2]]; tauto.
    + intros [[->|H1] H2]; [tauto|].
      destruct (jsstring_eq_dec y x) as [->|Hne]; [tauto|]. right. tauto.
Qed.

Lemma Set_spread_NoDup : forall array seen, NoDup (Set_spread seen array).
Proof.
  induction array as [|y rest IH]; intros seen; simpl; [constructor|].
  destruct (existsb (jsstring_eqb y) seen); [apply IH|].
  constructor; [|apply IH]. rewrite Set_spread_in. simpl. tauto.
Qed.

Lemma Set_spread_app : forall l1 l2 seen,
  Set_spread seen (l1 ++ l2) =
  Set_spread seen l1 ++ Set_spread (rev (Set_spread seen l1) ++ seen) l2.
Proof.
  induction l1 as [|y rest IH]; intros l2 seen; simpl; [reflexivity|].
  destruct (existsb (jsstring_eqb y) seen); [apply IH|].
  simpl. rewrite IH, <- app_assoc. reflexivity.
Qed.

(** A phrase stands in the result at the place of its first occurrence:
    what precedes it is the result for what precedes that occurrence. *)
Lemma Set_spread_first_occurrence l1 x l2 :
  ~ In x l1 ->
  exists later, Set_spread [] (l1 ++ x :: l2) = Set_spread [] l1 ++ x :: later.
Proof.
  intros Hx. rewrite Set_spread_app. simpl.
  destruct (existsb _ _) eqn:E.
  - apply seen_spec in E. rewrite app_nil_r, <- in_rev, Set_spread_in in E. tauto.
  - eexists. reflexivity.
Qed.

Lemma push_unless_negated_surviving text : forall ms,
  Analyzer.push_unless_negated text ms = Some (map Analyzer.text (surviving text ms)).
Proof.
  induction ms as [|m rest IH]; simpl; [reflexivity|].
  unfold suppressed at 1.
  destruct (isNegated_total text (Analyzer.index m) (Analyzer.length m)) as [b Hb].
  rewrite Hb, IH. cbn [bind]. destruct b; reflexivity.
Qed.

Lemma scan_positive_evidence text : forall patterns l,
  (forall p, In p patterns -> consuming p = true) ->
  Analyzer.scan_positive patterns text = Some l ->
  tier_evidence true patterns text l.
Proof.
  induction patterns as [|p rest IH]; intros l Hc; simpl.
  - intros [= <-]. exists []. split; [reflexivity | constructor].
  - destruct (Analyzer.findMatches p text) as [ms|] eqn:Hms; [|discriminate]. cbn [bind].
    rewrite push_unless_negated_surviving. cbn [bind].
    destruct (Analyzer.scan_positive rest text) as [tail|] eqn:Ht; [|discriminate].
    cbn [bind]. intros [= <-].
    destruct (IH tail) as (groups & -> & HF); [intros q Hq; apply Hc; right; exact Hq | reflexivity |].
    exists (map Analyzer.text (surviving text ms) :: groups). split; [reflexivity|].
    constructor; [|exact HF]. exists ms. repeat split; [exact Hms|].
    eapply findMatches_order; [apply Hc; left; reflexivity | exact Hms].
Qed.

Lemma scan_negative_evidence text : forall patterns l,
  (forall p, In p patterns -> consuming p = true) ->
  Analyzer.scan_negative patterns text = Some l ->
  tier_evidence false patterns text l.
Proof.
  induction patterns as [|p rest IH]; intros l Hc; simpl.
  - intros [= <-]. exists []. split; [reflexivity | constructor].
  - destruct (Analyzer.findMatches p text) as [ms|] eqn:Hms; [|discriminate]. cbn [bind].
    destruct (Analyzer.scan_negative rest text) as [tail|] eqn:Ht; [|discriminate].
    cbn [bind]. intros [= <-].
    destruct (IH tail) as (groups & -> & HF); [intros q Hq; apply Hc; right; exact Hq | reflexivity |].
    exists (map Analyzer.text ms :: groups). split; [reflexivity|].
    constructor; [|exact HF]. exists ms. repeat split; [exact Hms|].
    eapply findMatches_order; [apply Hc; left; reflexivity | exact Hms].
Qed.

Lemma in_match_order_substring text : forall ms from,
  in_match_order text from ms ->
  Forall (fun m => is_substring (Analyzer.text m) text) ms.
Proof.
  induction ms as [|m rest IH]; intros from; simpl; [constructor|].
  intros (_ & _ & _ & E & Hrest). constructor; [|eapply IH; exact Hrest].
  rewrite E. apply slice_is_substring.
Qed.

Lemma tier_evidence_substring positive patterns text l :
  tier_evidence positive patterns text l ->
  Forall (fun p => is_substring p text) l.
Proof.
  intros (groups & -> & HF). induction HF as [|p g ps gs (ms & _ & Ho & ->) _ IH]; simpl.
  - constructor.
  - apply Forall_app. split; [|exact IH].
    apply in_match_order_substring in Ho. rewrite Forall_forall in *.
    intros s Hs. apply in_map_iff in Hs. destruct Hs as (m & <- & Hm). apply Ho.
    destruct positive; [|exact Hm]. unfold surviving in Hm.
    apply filter_In in Hm. tauto.
Qed.

(** The result of the four scans, tier by tier. *)
Lemma scan_evidence text d :
  Analyzer.scan text = Some d ->
  tier_evidence true Analyzer.STRONG_POSITIVE_PATTERNS text (Analyzer.strongPositive d) /\
  tier_evidence true Analyzer.MODERATE_POSITIVE_PATTERNS text (Analyzer.moderatePositive d) /\
  tier_evidence false Analyzer.STRONG_NEGATIVE_PATTERNS text (Analyzer.strongNegative d) /\
  tier_evidence false Analyzer.MODERATE_NEGATIVE_PATTERNS text (Analyzer.moderateNegative d).
Proof.
  unfold Analyzer.scan.
  destruct (Analyzer.scan_positive Analyzer.STRONG_POSITIVE_PATTERNS text) as [sp|] eqn:H1;
    [|discriminate]. cbn [bind].
  destruct (Analyzer.scan_positive Analyzer.MODERATE_POSITIVE_PATTERNS text) as [mp|] eqn:H2;
    [|discriminate]. cbn [bind].
  destruct (Analyzer.scan_negative Analyzer.STRONG_NEGATIVE_PATTERNS text) as [sn|] eqn:H3;
    [|discriminate]. cbn [bind].
  destruct (Analyzer.scan_negative Analyzer.MODERATE_NEGATIVE_PATTERNS text) as [mn|] eqn:H4;
    [|discriminate]. cbn [bind].
  intros [= <-]. cbn.
  repeat split;
    [ apply scan_positive_evidence; [exact strong_positive_consuming | exact H1]
    | apply scan_positive_evidence; [exact moderate_positive_consuming | exact H2]
    | apply scan_negative_evidence; [exact strong_negative_consuming | exact H3]
    | apply scan_negative_evidence; [exact moderate_negative_consuming | exact H4] ].
Qed.

Lemma scan_substring text d :
  Analyzer.scan text = Some d ->
  Forall (fun p => is_substring p text) (Analyzer.strongPositive d) /\
  Forall (fun p => is_substring p text) (Analyzer.moderatePositive d) /\
  Forall (fun p => is_substring p text) (Analyzer.strongNegative d) /\
  Forall (fun p => is_substring p text) (Analyzer.moderateNegative d).
Proof.
  intros H. destruct (scan_evidence _ H) as (H1 & H2 & H3 & H4).
  repeat split; eapply tier_evidence_substring; eassumption.
Qed.

(** The phrase the highlighter cites is the head of the list of the negative
    tier that decided the status. *)
Lemma firstMatch_verdict_of d p :
  Highlighter.firstMatch (verdict_of d) = Some p ->
  Analyzer.status (verdict_of d) = Analyzer.no /\
  ((Analyzer.confidence (verdict_of d) = Analyzer.high /\
    hd_error (Analyzer.strongNegative d) = Some p) \/
   (Analyzer.confidence (verdict_of d) = Analyzer.medium /\
    hd_error (Analyzer.moderateNegative d) = Some p)).
Proof.
  unfold Highlighter.firstMatch, verdict_of, Analyzer.decide.
  cbn [Analyzer.status Analyzer.confidence Analyzer.details].
  destruct (Analyzer.strongPositive d); cbn; [|discriminate].
  destruct (Analyzer.strongNegative d); cbn; [|intros [= <-]; auto].
  destruct (Analyzer.moderatePositive d); cbn; [|discriminate].
  destruct (Analyzer.moderateNegative d); cbn; [discriminate | intros [= <-]; auto].
Qed.

(** C4: every phrase in the evidence of a verdict (each element of
    matchedKeywords and of the four per-tier lists, and the phrase cited for
    highlighting, which is the first match of the negative tier that decided
    the status) occurs verbatim in the input text; and when only
    StrongNegative evidence is found, the verdict is no/high and cites the
    first StrongNegative phrase. *)
Theorem evidence_is_verbatim (text : jsstring) :
  exists v, Analyzer.analyze (JSString text) = Some v /\
    Forall (fun p => is_substring p text) (Analyzer.matchedKeywords v) /\
    (forall d, Analyzer.details v = Some d ->
       Forall (fun p => is_substring p text) (Analyzer.strongPositive d) /\
       Forall (fun p => is_substring p text) (Analyzer.moderatePositive d) /\
       Forall (fun p => is_substring p text) (Analyzer.strongNegative d) /\
       Forall (fun p => is_substring p text) (Analyzer.moderateNegative d)) /\
    (forall p, Highlighter.firstMatch v = Some p ->
       is_substring p text /\
       Analyzer.status v = Analyzer.no /\
       exists d, Analyzer.details v = Some d /\
         ((Analyzer.confidence v = Analyzer.high /\
           hd_error (Analyzer.strongNegative d) = Some p) \/
          (Analyzer.confidence v = Analyzer.medium /\
           hd_error (Analyzer.moderateNegative d) = Some p))) /\
    (forall d p rest, Analyzer.details v = Some d ->
       Analyzer.strongPositive d = [] -> Analyzer.strongNegative d = p :: rest ->
       Analyzer.status v = Analyzer.no /\ Analyzer.confidence v = Analyzer.high /\
       Highlighter.firstMatch v = Some p).
Proof.
  destruct (analyze_cases (JSString text)) as [[_ H]|(t & d & [= <-] & Hne & Hs & H)].
  - exists Analyzer.no_description. split; [exact H|].
    split; [constructor|]. split; [intros d [=]|]. split; [intros p [=]|].
    intros d p rest [=].
  - exists (verdict_of d). split; [exact H|].
    destruct (scan_substring _ Hs) as (S1 & S2 & S3 & S4).
    split; [|split; [|split]].
    + cbn [verdict_of Analyzer.matchedKeywords]. apply Forall_forall. intros p Hp.
      apply Set_spread_in in Hp. destruct Hp as [Hp _].
      rewrite Forall_forall in S1, S2, S3, S4.
      repeat (apply in_app_or in Hp; destruct Hp as [Hp|Hp]); auto.
    + intros d' [= <-]. auto.
    + intros p Hp. destruct (firstMatch_verdict_of _ Hp) as [Hno Hhd].
      split; [|split; [exact Hno | exists d; split; [reflexivity | exact Hhd]]].
      rewrite Forall_forall in S3, S4.
      destruct Hhd as [[_ Hhd]|[_ Hhd]].
      * destruct (Analyzer.strongNegative d) as [|q l]; [discriminate|].
        injection Hhd as <-. apply S3. left. reflexivity.
      * destruct (Analyzer.moderateNegative d) as [|q l]; [discriminate|].
        injection Hhd as <-. apply S4. left. reflexivity.
    + intros d' p rest [= <-] Hsp Hsn.
      unfold Highlighter.firstMatch, verdict_of, Analyzer.decide.
      cbn [Analyzer.status Analyzer.confidence Analyzer.details].
      rewrite Hsp, Hsn. cbn. auto.
Qed.

Lemma evidence_is_verbatim_witness :
  exists v, Analyzer.analyze (JSString (str "Note: No sponsorship, sorry")) = Some v /\
    Analyzer.status v = Analyzer.no /\ Analyzer.confidence v = Analyzer.high /\
    Highlighter.firstMatch v = Some (str "No sponsorship") /\
    is_substring (str "No sponsorship") (str "Note: No sponsorship, sorry").
Proof.
  destruct (evidence_is_verbatim (str "Note: No sponsorship, sorry"))
    as (v & Ha & _ & _ & Hcite & Honly).
  exists v. split; [exact Ha|].
  assert (Hv : Analyzer.details v =
               Some {| Analyzer.strongPositive := []; Analyzer.moderatePositive := [];
                       Analyzer.strongNegative := [str "No sponsorship"];
                       Analyzer.moderateNegative := [] |}).
  { vm_compute in Ha. injection Ha as <-. reflexivity. }
  destruct (Honly _ (str "No sponsorship") [] Hv eq_refl eq_refl) as (H1 & H2 & H3).
  repeat split; try assumption. apply (Hcite _ H3).
Defined.

(** C6: matchedKeywords holds no phrase twice; it holds exactly the phrases
    of the surviving matches; each phrase stands at the place of its first
    occurrence in the concatenation of the StrongPositive, ModeratePositive,
    StrongNegative and ModerateNegative lists; and each of these lists runs
    through its catalogue in order and, per pattern, through the matches in
    match order. *)
Theorem matchedKeywords_deduplicated_in_order (text : jsstring) :
  exists v d,
    Analyzer.analyze (JSString text) = Some v /\
    Analyzer.scan text = Some d /\
    tier_evidence true Analyzer.STRONG_POSITIVE_PATTERNS text (Analyzer.strongPositive d) /\
    tier_evidence true Analyzer.MODERATE_POSITIVE_PATTERNS text (Analyzer.moderatePositive d) /\
    tier_evidence false Analyzer.STRONG_NEGATIVE_PATTERNS text (Analyzer.strongNegative d) /\
    tier_evidence false Analyzer.MODERATE_NEGATIVE_PATTERNS text (Analyzer.moderateNegative d) /\
    let all := Analyzer.strongPositive d ++ Analyzer.moderatePositive d ++
               Analyzer.strongNegative d ++ Analyzer.moderateNegative d in
    NoDup (Analyzer.matchedKeywords v) /\
    (forall x, In x (Analyzer.matchedKeywords v) <-> In x all) /\
    (forall l1 x l2, all = l1 ++ x :: l2 -> ~ In x l1 ->
       exists later, Analyzer.matchedKeywords v = Set_spread [] l1 ++ x :: later).
Proof.
  destruct (scan_total text) as [d Hs].
  assert (Hmk : exists v, Analyzer.analyze (JSString text) = Some v /\
            Analyzer.matchedKeywords v =
            Set_spread [] (Analyzer.strongPositive d ++ Analyzer.moderatePositive d ++
                           Analyzer.strongNegative d ++ Analyzer.moderateNegative d)).
  { destruct text as [|c text].
    - exists Analyzer.no_description. split; [reflexivity|].
      vm_compute in Hs. injection Hs as <-. reflexivity.
    - exists (verdict_of d). split; [apply analyze_string; [discriminate | exact Hs] | reflexivity]. }
  destruct Hmk as (v & Ha & Hmk). exists v, d.
  destruct (scan_evidence _ Hs) as (E1 & E2 & E3 & E4).
  repeat (split; [assumption|]). cbv zeta. rewrite Hmk.
  split; [apply Set_spread_NoDup|]. split.
  - intros x. rewrite Set_spread_in. simpl. tauto.
  - intros l1 x l2 -> Hx. apply Set_spread_first_occurrence. exact Hx.
Qed.

Lemma matchedKeywords_deduplicated_in_order_witness :
  exists v, Analyzer.analyze (JSString (str "US citizens only. No visa support, no visa support; US citizens only")) = Some v /\
    Analyzer.details v =
      Some {| Analyzer.strongPositive := []; Analyzer.moderatePositive := [];
              Analyzer.strongNegative :=
                [str "US citizens only"; str "US citizens only";
                 str "No visa support"; str "no visa support"];
              Analyzer.moderateNegative := [] |} /\
    Analyzer.matchedKeywords v =
      [str "US citizens only"; str "No visa support"; str "no visa support"] /\
    NoDup (Analyzer.matchedKeywords v).
Proof.
  destruct (matchedKeywords_deduplicated_in_order
              (str "US citizens only. No visa support, no visa support; US citizens only"))
    as (v & d & Ha & _ & _ & _ & _ & _ & Hnd & _).
  exists v. split; [exact Ha|].
  split; [|split; [|exact Hnd]]; vm_compute in Ha; injection Ha as <-; reflexivity.
Defined.

(** ** The negation window of [isNegated] *)

Lemma flat_map_flat_map {A B C} (f : A -> list B) (g : B -> list C) l :
  flat_map g (flat_map f l) = flat_map (fun x => flat_map g (f x)) l.
Proof.
  induction l as [|a l IH]; simpl; [reflexivity|].
  rewrite flat_map_app, IH. reflexivity.
Qed.

Lemma matcher_seq_append ic t : forall r x,
  matcher ic (seq_append r t) x = flat_map (matcher ic t) (matcher ic r x).
Proof.
  induction r as [|c| | |cs| | |r1 IH1 r2 IH2|r1 IH1 r2 IH2|r IH min max];
    intros x; try reflexivity.
  - simpl. rewrite app_nil_r. reflexivity.
  - cbn [seq_append matcher]. rewrite flat_map_flat_map.
    apply flat_map_ext. intros y. apply IH2.
Qed.

(** [search] succeeds exactly when the pattern matches at some position of
    the part still to scan. *)
Lemma search_complete ic r : forall aft bef skipped rest,
  aft = skipped ++ rest ->
  matcher ic r (Cursor (rev skipped ++ bef) rest) <> [] ->
  search ic r bef aft <> None.
Proof.
  induction aft as [|a aft IH]; intros bef skipped rest Hsplit Hm.
  - destruct skipped; [|discriminate]. simpl in Hsplit. subst rest. simpl in *.
    destruct (matcher ic r (Cursor bef [])); [congruence | discriminate].
  - simpl. destruct (matcher ic r (Cursor bef (a :: aft))) eqn:E; [|discriminate].
    destruct skipped as [|s skipped].
    + simpl in Hsplit. subst rest. simpl in Hm. congruence.
    + injection Hsplit as <- ->. apply (IH _ skipped rest eq_refl).
      simpl in Hm. rewrite <- app_assoc in Hm. exact Hm.
Qed.

Lemma exec_from_start p r s :
  compile (source p) = Some r ->
  exec p s 0 = Some (search (ignoreCase p) r [] s).
Proof. unfold exec. intros ->. reflexivity. Qed.

(** A pattern without the [g] flag is found in [s] exactly when it matches
    at some cursor of [s]. *)
Lemma found_iff p r s :
  compile (source p) = Some r ->
  (test p s = Some true <->
   exists b e, rev (before b) ++ after b = s /\ In e (matcher (ignoreCase p) r b)).
Proof.
  intros Hc. unfold test. rewrite (exec_from_start _ s Hc). cbn [bind]. split.
  - destruct (search (ignoreCase p) r [] s) as [[b e]|] eqn:Hs; [|discriminate].
    intros _. apply search_sound in Hs. destruct Hs as [(sk & Hb & Ha) Hin].
    exists b, e. split; [|exact Hin]. simpl in Hb, Ha.
    rewrite Hb, Ha, app_nil_r, rev_involutive. reflexivity.
  - intros (b & e & Hs & Hin).
    destruct (search (ignoreCase p) r [] s) eqn:E; [reflexivity|]. exfalso.
    apply (@search_complete (ignoreCase p) r s [] (rev (before b)) (after b)); auto.
    rewrite rev_involutive, app_nil_r. destruct b as [bb ba]. simpl.
    intros Hnil. simpl in Hin. rewrite Hnil in Hin. exact Hin.
Qed.

Lemma String_match_found p s :
  (exists m, String_match s p = Some (Some m)) <-> test p s = Some true.
Proof.
  unfold String_match, test. destruct (exec p s 0) as [[[b e]|]|]; cbn [bind]; split;
    try discriminate; try (intros [m H]; discriminate); auto.
  intros _. eexists. reflexivity.
Qed.

Lemma not_period_class a :
  negb (existsb (same_char true a) ["."%char]) = not_period a.
Proof.
  destruct a as [[] [] [] [] [] [] [] []]; reflexivity.
Qed.

(** The greedy bounded repetition of a character class reaches the end of
    the subject exactly when what remains is short enough and lies in the
    class. *)
Lemma repeat_class_reaches_end (P : ascii -> bool) :
  forall fuel k x,
    List.length (after x) < fuel ->
    ((exists y, In y (repeat_matcher (advance P) fuel 0 (Some k) x) /\ after y = []) <->
     List.length (after x) <= k /\ forallb P (after x) = true).
Proof.
  induction fuel as [|f IH]; intros k x Hf; [lia|].
  destruct x as [bef aft]. cbn [after] in *.
  destruct k as [|k].
  - cbn [repeat_matcher]. split.
    + intros (y & [<-|[]] & Hy). cbn [after] in Hy. subst aft. split; [simpl; lia | reflexivity].
    + intros [Hl _]. destruct aft; [|simpl in Hl; lia].
      exists (Cursor bef []). split; [left; reflexivity | reflexivity].
  - cbn [repeat_matcher Nat.eqb andb option_map pred].
    destruct aft as [|a rest].
    + change (advance P (Cursor bef [])) with (@nil cursor).
      simpl. split; [intros _; split; [lia | reflexivity]|].
      intros _. exists (Cursor bef []). split; [left; reflexivity | reflexivity].
    + change (advance P (Cursor bef (a :: rest)))
        with (if P a then [Cursor (a :: bef) rest] else []).
      destruct (P a) eqn:Pa.
      * cbn [flat_map]. rewrite app_nil_r.
        replace (position (Cursor (a :: bef) rest) =? position (Cursor bef (a :: rest)))
          with false by (symmetry; apply Nat.eqb_neq; unfold position; simpl; lia).
        specialize (IH k (Cursor (a :: bef) rest)). cbn [after] in IH.
        simpl in Hf. cbn [forallb List.length]. rewrite Pa. cbn [andb].
        rewrite <- Nat.succ_le_mono, <- IH by lia. split.
        -- intros (y & Hin & Hy). apply in_app_or in Hin. destruct Hin as [Hin|[<-|[]]].
           ++ exists y. split; assumption.
           ++ discriminate Hy.
        -- intros (y & Hin & Hy). exists y. split; [apply in_or_app; left; exact Hin | exact Hy].
      * cbn [flat_map app forallb]. rewrite Pa. cbn [andb]. split.
        -- intros (y & [<-|[]] & Hy). discriminate Hy.
        -- intros [_ Hfalse]. discriminate Hfalse.
Qed.

Lemma window_suffix_matches x :
  matcher true window_suffix x <> [] <-> fits_window (after x) = true.
Proof.
  unfold fits_window. rewrite andb_true_iff, Nat.leb_le.
  assert (Hcls : forall l, forallb not_period l =
            forallb (fun a => negb (existsb (same_char true a) ["."%char])) l).
  { induction l as [|a l IHl]; [reflexivity|].
    cbn [forallb]. rewrite IHl, not_period_class. reflexivity. }
  rewrite Hcls.
  pose proof (@repeat_class_reaches_end
                (fun a => negb (existsb (same_char true a) ["."%char]))
                (S (0 + List.length (after x))) 20 x) as H.
  rewrite <- H by (simpl; lia). clear H.
  unfold window_suffix. cbn [matcher].
  set (l := repeat_matcher _ _ _ _ _). clearbody l. split.
  - intros Hne. induction l as [|y l IHl]; simpl in *.
    + congruence.
    + destruct (after y) eqn:Hy.
      * exists y. auto.
      * simpl in Hne. destruct (IHl Hne) as (z & Hz & Hz'). exists z. auto.
  - intros (y & Hin & Hy). induction l as [|z l IHl]; [destruct Hin|].
    simpl. destruct Hin as [->|Hin].
    + rewrite Hy. simpl. discriminate.
    + destruct (after z); simpl; [discriminate | auto].
Qed.

Lemma negation_pattern_forms p :
  In p Analyzer.NEGATION_PATTERNS ->
  ignoreCase p = true /\
  exists r, compile (source p) = Some r /\
            compile (source (Analyzer.close_to_end p)) = Some (seq_append r window_suffix).
Proof.
  intros H. repeat (destruct H as [<-|H]; [split; [reflexivity | eexists; split; vm_compute; reflexivity]|]).
  destruct H.
Qed.

(** The pattern built by [isNegated] is found in the context exactly when a
    match of the cue is followed by a tail that fits the window. *)
Lemma close_to_end_found p r ctx :
  In p Analyzer.NEGATION_PATTERNS -> compile (source p) = Some r ->
  (test (Analyzer.close_to_end p) ctx = Some true <->
   exists b e, rev (before b) ++ after b = ctx /\ In e (matcher true r b) /\
               fits_window (after e) = true).
Proof.
  intros Hp Hc. destruct (negation_pattern_forms Hp) as (_ & r' & Hc' & Hclose).
  rewrite Hc in Hc'. injection Hc' as <-.
  rewrite (@found_iff _ _ ctx Hclose). cbn [Analyzer.close_to_end ignoreCase]. split.
  - intros (b & e & Hs & Hin). rewrite matcher_seq_append in Hin.
    apply in_flat_map in Hin. destruct Hin as (y & Hy & He).
    exists b, y. repeat split; try assumption.
    apply window_suffix_matches. intros Hnil. rewrite Hnil in He. exact He.
  - intros (b & y & Hs & Hy & Hw). apply window_suffix_matches in Hw.
    destruct (matcher true window_suffix y) as [|e l] eqn:E; [congruence|].
    exists b, e. split; [exact Hs|]. rewrite matcher_seq_append.
    apply in_flat_map. exists y. split; [exact Hy | rewrite E; left; reflexivity].
Qed.

Lemma isNegated_from_true ctx : forall patterns,
  forallb (fun p => compiles p && compiles (Analyzer.close_to_end p)) patterns = true ->
  (Analyzer.isNegated_from patterns ctx = Some true <->
   exists p, In p patterns /\ test p ctx = Some true /\
             test (Analyzer.close_to_end p) ctx = Some true).
Proof.
  induction patterns as [|q rest IH]; intros Hall.
  - simpl. split; [discriminate | intros (p & [] & _)].
  - simpl in Hall. apply andb_prop in Hall. destruct Hall as [Hq Hrest].
    apply andb_prop in Hq. destruct Hq as [Hq1 Hq2].
    specialize (IH Hrest). cbn [Analyzer.isNegated_from].
    destruct (test_total q ctx Hq1) as [found Hfound]. rewrite Hfound. cbn [bind].
    destruct (String_match_total _ ctx Hq2) as [m Hm].
    pose proof (String_match_found (Analyzer.close_to_end q) ctx) as HF.
    rewrite Hm in *. cbn [bind].
    destruct found.
    + destruct m as [m|].
      * split; [intros _|reflexivity]. exists q. split; [left; reflexivity|].
        split; [exact Hfound | apply HF; eexists; reflexivity].
      * rewrite IH. split.
        -- intros (p & Hp & H). exists p. split; [right; exact Hp | exact H].
        -- intros (p & [<-|Hp] & H1 & H2).
           ++ apply HF in H2. destruct H2 as [m' H2]. discriminate H2.
           ++ exists p. auto.
    + rewrite IH. split.
      * intros (p & Hp & H). exists p. split; [right; exact Hp | exact H].
      * intros (p & [<-|Hp] & H1 & H2).
        -- congruence.
        -- exists p. auto.
Qed.

(** A positive match is dropped exactly when, in the lower-cased context of
    at most 50 code units before it, a negation cue is followed up to the
    match start by at most 20 code units, none of them a period. *)
Lemma suppressed_iff text m :
  suppressed text m = true <->
  exists tail, cue_before (contextBefore text (Analyzer.index m)) tail /\
               fits_window tail = true.
Proof.
  unfold suppressed.
  destruct (isNegated_total text (Analyzer.index m) (Analyzer.length m)) as [b Hb].
  rewrite Hb. transitivity (Analyzer.isNegated text (Analyzer.index m) (Analyzer.length m) = Some true).
  { rewrite Hb. split; congruence. }
  unfold Analyzer.isNegated. fold (contextBefore text (Analyzer.index m)).
  rewrite (@isNegated_from_true _ _ negation_patterns_compile). split.
  - intros (p & Hp & _ & H2).
    destruct (negation_pattern_forms Hp) as (_ & r & Hc & _).
    apply (@close_to_end_found _ _ _ Hp Hc) in H2. destruct H2 as (b' & e & Hs & Hin & Hw).
    exists (after e). split; [|exact Hw]. exists p, r, b', e. auto.
  - intros (tail & (p & r & b' & e & Hp & Hc & Hs & Hin & <-) & Hw).
    exists p. split; [exact Hp|]. split.
    + apply (@found_iff _ _ _ Hc). destruct (negation_pattern_forms Hp) as (-> & _).
      exists b', e. auto.
    + apply (@close_to_end_found _ _ _ Hp Hc). exists b', e. auto.
Qed.

Lemma fits_window_spec tail :
  fits_window tail = true <-> List.length tail <= 20 /\ ~ In "."%char tail.
Proof.
  unfold fits_window. rewrite andb_true_iff, Nat.leb_le, forallb_forall.
  split; intros [Hl Hp]; (split; [exact Hl|]).
  - intros Hin. apply Hp in Hin. discriminate Hin.
  - intros a Ha. unfold not_period. destruct (Ascii.eqb_spec a "."%char); [subst; tauto | reflexivity].
Qed.

(** ** A positive phrase inside a negated span *)

Lemma is_word_char_lower a : is_word_char (lower_char a) = is_word_char a.
Proof. destruct a as [[] [] [] [] [] [] [] []]; reflexivity. Qed.

Lemma ends_with_word_char_lower s :
  ends_with_word_char (toLowerCase s) = ends_with_word_char s.
Proof.
  unfold ends_with_word_char, toLowerCase, word_before. cbn [before].
  rewrite <- map_rev. destruct (rev s); [reflexivity | apply is_word_char_lower].
Qed.

Lemma ends_with_word_char_skipn k s :
  ends_with_word_char s = false -> ends_with_word_char (skipn k s) = false.
Proof.
  unfold ends_with_word_char, word_before. cbn [before].
  destruct (Nat.le_gt_cases (List.length s) k) as [Hk|Hk].
  - rewrite skipn_all2 by exact Hk. reflexivity.
  - replace (skipn k s) with (skipn (List.length s - (List.length s - k)) s)
      by (f_equal; lia).
    rewrite <- firstn_rev.
    destruct (List.length s - k) as [|j] eqn:Hj; [lia|].
    destruct (rev s); [reflexivity | simpl; auto].
Qed.

Lemma substring_prefix (a rest : jsstring) k :
  k <= List.length a -> substring (a ++ rest) k (List.length a) = skipn k a.
Proof.
  intros Hk. rewrite substring_in_range; [| exact Hk | rewrite length_app; lia].
  rewrite skipn_app. replace (k - List.length a) with 0 by lia. cbn [skipn].
  rewrite firstn_app, length_skipn.
  replace (List.length a - k - (List.length a - k)) with 0 by lia.
  cbn [firstn]. rewrite app_nil_r. apply firstn_all2. rewrite length_skipn. lia.
Qed.

(** The cue [\bno\s+] matches a word-initial "no " up to the cursor. *)
Lemma no_cue_matches bef :
  word_before (Cursor bef []) = false ->
  exists r, compile (source (re_i "\bno\s+")) = Some r /\
            In (Cursor (rev (str "no ") ++ bef) []) (matcher true r (Cursor bef (str "no "))).
Proof.
  intros Hw. eexists. split; [vm_compute; reflexivity|].
  cbn [matcher]. unfold word_before in *. cbn [before after] in *.
  unfold word_after. cbn [after str list_ascii_of_string]. rewrite Hw.
  left. reflexivity.
Qed.

Lemma no_sponsorship_suppressed text pre post m :
  text = pre ++ str "no sponsorship" ++ post ->
  ends_with_word_char pre = false ->
  Analyzer.index m = List.length pre + 3 ->
  suppressed text m = true.
Proof.
  intros -> Hpre Hidx. apply suppressed_iff. exists []. split; [|reflexivity].
  unfold contextBefore. rewrite Hidx. cbn [Nat.max].
  change (pre ++ str "no sponsorship" ++ post)
    with (pre ++ str "no " ++ (str "sponsorship" ++ post)).
  rewrite app_assoc.
  replace (List.length pre + 3) with (List.length (pre ++ str "no "))
    by (rewrite length_app; reflexivity).
  rewrite substring_prefix by (rewrite length_app; simpl; lia).
  rewrite length_app. cbn [List.length str list_ascii_of_string].
  rewrite skipn_app.
  replace (List.length pre + 3 - 50 - List.length pre) with 0 by lia. cbn [skipn].
  unfold toLowerCase. rewrite map_app.
  set (ctx0 := map lower_char (skipn (List.length pre + 3 - 50) pre)).
  assert (Hctx0 : word_before (Cursor (rev ctx0) []) = false).
  { change (ends_with_word_char (toLowerCase (skipn (List.length pre + 3 - 50) pre)) = false).
    rewrite ends_with_word_char_lower. apply ends_with_word_char_skipn. exact Hpre. }
  destruct (no_cue_matches _ Hctx0) as (r & Hc & Hin).
  exists (re_i "\bno\s+"), r, (Cursor (rev ctx0) (str "no ")), (Cursor (rev (str "no ") ++ rev ctx0) []).
  split; [left; reflexivity|]. split; [exact Hc|]. split.
  - cbn [before after]. rewrite rev_involutive. reflexivity.
  - split; [exact Hin | reflexivity].
Qed.

(** ** C3 *)

(** C3, as the claim states it, fails: in "No fee. We offer visa
    sponsorship" the cue "No " lies 14 code units before the match
    "visa sponsorship", yet the match is kept, because a period lies
    between them. *)
Lemma period_ends_negation_window :
  ~ suppresses_cue_in_window (str "No fee. We offer visa sponsorship").
Proof.
  intros H.
  set (m := {| Analyzer.text := str "visa sponsorship"; Analyzer.index := 17;
               Analyzer.length := 16 |}).
  assert (Hs : suppressed (str "No fee. We offer visa sponsorship") m = true).
  { apply (H (re_i "\bvisa\s+sponsorship\b") [m] m (str "fee. we offer ")).
    - unfold positive_patterns. apply in_or_app. left. vm_compute. tauto.
    - vm_compute. reflexivity.
    - left. reflexivity.
    - exists (re_i "\bno\s+").
      eexists. exists (Cursor [] (str "no fee. we offer ")).
      exists (Cursor (rev (str "no ")) (str "fee. we offer ")).
      split; [left; reflexivity|]. split; [vm_compute; reflexivity|].
      split; [vm_compute; reflexivity|]. split; [vm_compute; tauto | reflexivity].
    - vm_compute. lia. }
  vm_compute in Hs. discriminate Hs.
Qed.

(** C3 (amended): the verdict of a non-empty text is decided on, and
    reports, four tier lists in which every text of a positive tier is the
    text of a match that is not suppressed, while the negative tiers hold
    the texts of all their matches; a positive match is suppressed exactly
    when, in the lower-cased context of at most 50 code units before it, a
    negation cue is followed up to the match start by at most 20 code
    units none of which is a period; in particular a positive match that
    starts at the "sponsorship" of a word-initial "no sponsorship" is
    suppressed. *)
Theorem negation_window_suppression (text : jsstring) :
  exists d,
    Analyzer.scan text = Some d /\
    (text <> [] -> Analyzer.analyze (JSString text) = Some (verdict_of d)) /\
    tier_evidence true Analyzer.STRONG_POSITIVE_PATTERNS text (Analyzer.strongPositive d) /\
    tier_evidence true Analyzer.MODERATE_POSITIVE_PATTERNS text (Analyzer.moderatePositive d) /\
    tier_evidence false Analyzer.STRONG_NEGATIVE_PATTERNS text (Analyzer.strongNegative d) /\
    tier_evidence false Analyzer.MODERATE_NEGATIVE_PATTERNS text (Analyzer.moderateNegative d) /\
    (forall m, suppressed text m = true <->
       exists tail, cue_before (contextBefore text (Analyzer.index m)) tail /\
                    List.length tail <= 20 /\ ~ In "."%char tail) /\
    (forall pre post m,
       text = pre ++ str "no sponsorship" ++ post ->
       ends_with_word_char pre = false ->
       Analyzer.index m = List.length pre + 3 ->
       suppressed text m = true).
Proof.
  destruct (scan_total text) as [d Hs]. exists d.
  destruct (scan_evidence _ Hs) as (E1 & E2 & E3 & E4).
  split; [exact Hs|].
  split; [intros Hne; apply analyze_string; assumption|].
  repeat (split; [assumption|]). split.
  - intros m. rewrite suppressed_iff. split.
    + intros (tail & Hc & Hw). apply fits_window_spec in Hw. exists tail. tauto.
    + intros (tail & Hc & Hw). exists tail. split; [exact Hc | apply fits_window_spec; exact Hw].
  - intros pre post m. apply no_sponsorship_suppressed.
Qed.

Lemma negation_window_suppression_witness :
  suppressed (str "Sorry, no sponsorship available")
    {| Analyzer.text := str "sponsorship available"; Analyzer.index := 10;
       Analyzer.length := 21 |} = true.
Proof.
  destruct (negation_window_suppression (str "Sorry, no sponsorship available"))
    as (d & _ & _ & _ & _ & _ & _ & _ & Hspan).
  apply (Hspan (str "Sorry, ") (str " available")); reflexivity.
Defined.

(** ** The page monitor *)

Lemma analyze_total v : exists r, Analyzer.analyze v = Some r.
Proof.
  destruct (analyze_cases v) as [[_ H]|(text & d & _ & _ & _ & H)]; eauto.
Qed.

Lemma strict_eq_spec a b : Content.strict_eq a b = true <-> a = b.
Proof.
  destruct a as [x|], b as [y|]; simpl; try (split; congruence).
  rewrite jsstring_eqb_eq. split; congruence.
Qed.

Lemma strict_eq_false a b : Content.strict_eq a b = false <-> a <> b.
Proof.
  rewrite <- strict_eq_spec. destruct (Content.strict_eq a b); split; congruence.
Qed.

(** C7, as the claim states it, fails when the description cannot be
    extracted: the job id differs from the stored one, yet the check only
    schedules a retry. *)
Lemma no_reclassification_without_description :
  ~ change_detection_rule (Some (str "111")) None false (Some (str "222")) None.
Proof.
  intros (st' & effects & Hrun & [_ Hiff] & _).
  vm_compute in Hrun. injection Hrun as <- <-.
  assert (H : reclassified
                [Content.SetTimeout (Content.ProcessJobPage false) 300] = true).
  { apply Hiff. left. discriminate. }
  discriminate H.
Qed.

Lemma falsy_some (text : jsstring) :
  text <> [] -> Content.falsy (@Some jsstring text) = false.
Proof. destruct text; [congruence | reflexivity]. Qed.

(** C7 (amended): on a job page whose description is extractable, the
    unforced check of an idle monitor reclassifies exactly when the job id
    differs from the stored one, or the fingerprint differs from the stored
    one, or the badge is absent; a reclassification stores the current job
    id and fingerprint; and when job id, fingerprint and badge are
    unchanged nothing is reclassified and the stored identity is left as it
    is. *)
Theorem change_detection_with_description
    (storedId storedHash : option jsstring) (badgePresent : bool)
    (jobId : option jsstring) (text : jsstring) :
  text <> [] ->
  change_detection_rule storedId storedHash badgePresent jobId (Some text) /\
  forall st' effects,
    Content.processJobPage false (idle storedId storedHash)
      (job_page jobId (Some text) badgePresent) = Some (st', effects) ->
    reclassified effects = true ->
    st' = idle jobId (Content.hashJobDescription (Some text)).
Proof.
  intros Hne.
  destruct (analyze_total (JSString text)) as [v Hv].
  assert (Hrun : forall st' effects,
    Content.processJobPage false (idle storedId storedHash)
      (job_page jobId (Some text) badgePresent) = Some (st', effects) ->
    (jobId = storedId /\ Content.hashJobDescription (Some text) = storedHash /\
     badgePresent = true /\ st' = idle storedId storedHash /\ effects = []) \/
    ((jobId <> storedId \/ Content.hashJobDescription (Some text) <> storedHash \/
      badgePresent = false) /\
     st' = idle jobId (Content.hashJobDescription (Some text)) /\
     reclassified effects = true)).
  { intros st' effects. unfold Content.processJobPage.
    cbn [idle job_page Content.isProcessing Content.isLinkedInJobPage
         Content.extractJobId Content.extractJobDescription Content.badge
         Content.currentJobId Content.currentJobDescriptionHash andb negb].
    rewrite (falsy_some Hne). cbn [Content.value_of]. rewrite Hv. cbn [bind].
    destruct (Content.strict_eq jobId storedId) eqn:E1;
      [apply strict_eq_spec in E1 | apply strict_eq_false in E1];
      (destruct (Content.strict_eq (Content.hashJobDescription (Some text)) storedHash) eqn:E2;
       [apply strict_eq_spec in E2 | apply strict_eq_false in E2]);
      destruct badgePresent; cbn [negb andb];
      intros [= <- <-];
      try (left; repeat split; assumption);
      right; (split; [tauto|]); (split; [reflexivity|]);
      destruct (Analyzer.status v); reflexivity. }
  assert (Hex : exists st' effects,
    Content.processJobPage false (idle storedId storedHash)
      (job_page jobId (Some text) badgePresent) = Some (st', effects)).
  { unfold Content.processJobPage.
    cbn [idle job_page Content.isProcessing Content.isLinkedInJobPage
         Content.extractJobId Content.extractJobDescription Content.badge
         Content.currentJobId Content.currentJobDescriptionHash andb negb].
    rewrite (falsy_some Hne). cbn [Content.value_of]. rewrite Hv. cbn [bind].
    destruct (_ && _); eauto. }
  destruct Hex as (st' & effects & Hp). split.
  - exists st', effects. split; [exact Hp|].
    destruct (Hrun _ _ Hp) as [(H1 & H2 & H3 & H4 & H5)|(H1 & H2 & H3)].
    + subst effects. split.
      * split; [discriminate|]. intros [H|[H|H]]; congruence.
      * intros _ _ _. split; [reflexivity | exact H4].
    + split.
      * split; [intros _; exact H1 | intros _; exact H3].
      * intros E1 E2 E3. destruct H1 as [H|[H|H]]; congruence.
  - intros st2 effects2 Hp2 Hr.
    destruct (Hrun _ _ Hp2) as [(_ & _ & _ & _ & H5)|(_ & H2 & _)].
    + subst effects2. discriminate Hr.
    + exact H2.
Qed.

Lemma change_detection_with_description_witness :
  str "Senior engineer. We will sponsor." <> [] /\
  change_detection_rule (Some (str "111")) None true (Some (str "111"))
    (Some (str "Senior engineer. We will sponsor.")).
Proof.
  split; [discriminate|].
  apply (change_detection_with_description (Some (str "111")) None true (Some (str "111"))).
  discriminate.
Defined.

(** The periodic check does nothing while the job id and the fingerprint
    equal the stored ones, whether the badge is present or not. *)
Lemma checkForJobChange_unchanged st pg :
  Content.extractJobId pg = Content.currentJobId st ->
  Content.hashJobDescription (Content.extractJobDescription pg) =
    Content.currentJobDescriptionHash st ->
  Content.checkForJobChange st pg = Some (st, []).
Proof.
  intros E1 E2. unfold Content.checkForJobChange.
  destruct (Content.isProcessing st); [reflexivity|].
  apply strict_eq_spec in E1. apply strict_eq_spec in E2.
  rewrite E1, E2. reflexivity.
Qed.

(** ** Retries while the description is missing *)

(** While the description is missing, a call that passes the busy and page
    guards leaves the state as it is and schedules one retry when it is
    forced or the job id differs from the stored one, and nothing
    otherwise. *)
Lemma processJobPage_without_description force st pg :
  Content.isLinkedInJobPage pg = true ->
  Content.isProcessing st && negb force = false ->
  Content.falsy (Content.extractJobDescription pg) = true ->
  Content.processJobPage force st pg =
  Some (st, if force || negb (Content.strict_eq (Content.currentJobId st)
                                                (Content.extractJobId pg))
            then [Content.SetTimeout (Content.ProcessJobPage force) 300]
            else []).
Proof.
  intros Hpage Hbusy Hdesc. unfold Content.processJobPage.
  rewrite Hbusy, Hpage, Hdesc. cbn [negb].
  destruct force; cbn [negb andb orb]; [reflexivity|].
  destruct (Content.strict_eq (Content.currentJobId st) (Content.extractJobId pg)) eqn:E.
  - match goal with |- (if ?c then _ else _) = _ => destruct c end; reflexivity.
  - assert (E' : Content.strict_eq (Content.extractJobId pg) (Content.currentJobId st) = false).
    { apply strict_eq_false. apply strict_eq_false in E. congruence. }
    rewrite E'. reflexivity.
Qed.

Lemma retries_never_end force st pg :
  Content.isLinkedInJobPage pg = true ->
  Content.isProcessing st && negb force = false ->
  Content.falsy (Content.extractJobDescription pg) = true ->
  force || negb (Content.strict_eq (Content.currentJobId st) (Content.extractJobId pg)) = true ->
  forall n, Content.after_retries n force st pg =
            Some (st, [Content.SetTimeout (Content.ProcessJobPage force) 300]).
Proof.
  intros Hpage Hbusy Hdesc Hretry.
  pose proof (processJobPage_without_description _ _ _ Hpage Hbusy Hdesc) as Hrun.
  rewrite Hretry in Hrun.
  induction n as [|n IH]; cbn [Content.after_retries]; rewrite Hrun; [reflexivity|].
  cbn [bind]. exact IH.
Qed.

(** C8, as the claim states it, fails: with the stored job id "111", the
    current job id "222" and no description, the unforced call schedules a
    retry although the job id differs, and the retries never end. *)
Lemma retry_scheduled_for_changed_job :
  ~ retry_tied_to_unchanged_job false (idle (Some (str "111")) None)
      (job_page (Some (str "222")) None false).
Proof.
  intros [Honly _].
  specialize (Honly _ _ eq_refl eq_refl). discriminate Honly.
Qed.

(** C8 (amended): while the description is not extractable, a call of
    [processJobPage] that passes the busy and page guards leaves the stored
    identity as it is and schedules exactly one retry, 300 ms later, when
    it is forced or the current job id differs from the stored one, and
    none when it is unforced and the job id is unchanged; as nothing is
    stored, each retry on an unchanged page schedules the next one, so the
    retries are not bounded. *)
Theorem retry_while_description_missing
    (force : bool) (st : Content.State) (pg : Content.Page) :
  Content.isLinkedInJobPage pg = true ->
  Content.isProcessing st && negb force = false ->
  Content.falsy (Content.extractJobDescription pg) = true ->
  let changed := negb (Content.strict_eq (Content.currentJobId st)
                                          (Content.extractJobId pg)) in
  Content.processJobPage force st pg =
    Some (st, if force || changed
              then [Content.SetTimeout (Content.ProcessJobPage force) 300]
              else []) /\
  (force || changed = true ->
   forall n, Content.after_retries n force st pg =
             Some (st, [Content.SetTimeout (Content.ProcessJobPage force) 300])).
Proof.
  intros Hpage Hbusy Hdesc changed. split.
  - apply processJobPage_without_description; assumption.
  - intros Hretry. apply retries_never_end; assumption.
Qed.

Lemma retry_while_description_missing_witness :
  Content.processJobPage false (idle (Some (str "111")) None)
    (job_page (Some (str "222")) None false) =
    Some (idle (Some (str "111")) None,
          [Content.SetTimeout (Content.ProcessJobPage false) 300]) /\
  Content.after_retries 100 false (idle (Some (str "111")) None)
    (job_page (Some (str "222")) None false) =
    Some (idle (Some (str "111")) None,
          [Content.SetTimeout (Content.ProcessJobPage false) 300]).
Proof.
  destruct (retry_while_description_missing false (idle (Some (str "111")) None)
              (job_page (Some (str "222")) None false) eq_refl eq_refl eq_refl)
    as [H1 H2].
  split; [exact H1 | exact (H2 eq_refl 100)].
Defined.

(** ** The content fingerprint *)

(** C9, as the claim states it, fails: two descriptions of 201 code units
    that differ only in the last one have the same fingerprint. *)
Lemma fingerprint_misses_late_change :
  ~ fingerprint_separates (repeat "a"%char 200 ++ str "b")
                          (repeat "a"%char 200 ++ str "c").
Proof.
  intros H. apply H; try discriminate; vm_compute; reflexivity.
Qed.

Lemma split_at_separator (x : ascii) : forall l1 l2 r1 r2,
  ~ In x l1 -> ~ In x l2 -> l1 ++ x :: r1 = l2 ++ x :: r2 -> l1 = l2 /\ r1 = r2.
Proof.
  induction l1 as [|a l1 IH]; intros [|b l2] r1 r2 H1 H2 E; simpl in *.
  - injection E as ->. auto.
  - injection E as -> _. tauto.
  - injection E as -> _. tauto.
  - injection E as -> E. destruct (IH l2 r1 r2) as [-> ->]; auto.
Qed.

Lemma Number_toString_digits n : ~ In "|"%char (Content.Number_toString n).
Proof.
  unfold Content.Number_toString. generalize (Nat.to_uint n). intros d.
  induction d; simpl; intros H; try (destruct H as [H|H]; [discriminate H | auto]).
  destruct H.
Qed.

Lemma Number_toString_inj n m :
  Content.Number_toString n = Content.Number_toString m -> n = m.
Proof.
  unfold Content.Number_toString, str. intros H.
  apply (f_equal string_of_list_ascii) in H.
  rewrite !string_of_list_ascii_of_string in H.
  apply (f_equal NilEmpty.uint_of_string) in H.
  rewrite !NilEmpty.usu in H. injection H as H.
  apply (f_equal Nat.of_uint) in H. rewrite !Unsigned.of_to in H. exact H.
Qed.

Lemma substring_whole (s : jsstring) n :
  List.length s <= n -> substring s 0 n = s.
Proof.
  intros H. unfold substring. rewrite (Nat.min_r n) by exact H.
  cbn [Nat.min Nat.max skipn]. rewrite Nat.sub_0_r. apply firstn_all.
Qed.

Lemma hashJobDescription_some (t : jsstring) :
  t <> [] ->
  Content.hashJobDescription (@Some jsstring t) =
  Some (preview t ++ str "|" ++ Content.Number_toString (List.length t)).
Proof.
  intros H. unfold Content.hashJobDescription. rewrite (falsy_some H). reflexivity.
Qed.

Lemma fingerprint_eq_iff (a b : jsstring) :
  a <> [] -> b <> [] ->
  (Content.hashJobDescription (@Some jsstring a) = Content.hashJobDescription (Some b) <->
   List.length a = List.length b /\ preview a = preview b).
Proof.
  intros Ha Hb. rewrite (hashJobDescription_some Ha), (hashJobDescription_some Hb). split.
  - intros [= E]. apply (f_equal (@rev ascii)) in E.
    rewrite !rev_app_distr in E. cbn [str list_ascii_of_string rev app] in E.
    rewrite <- !app_assoc in E. cbn [app] in E.
    apply split_at_separator in E;
      try (rewrite <- in_rev; apply Number_toString_digits).
    destruct E as [E1 E2].
    apply (f_equal (@rev ascii)) in E1, E2. rewrite !rev_involutive in E1, E2.
    split; [apply Number_toString_inj; exact E1 | exact E2].
  - intros [-> ->]. reflexivity.
Qed.

(** C9 (amended): the fingerprints of two non-empty descriptions are equal
    exactly when the descriptions have the same length and the same trimmed
    prefix of 200 code units; so they differ whenever the lengths or these
    prefixes differ, and two extracted descriptions of at most 200 code
    units with the same fingerprint are the same text. *)
Theorem fingerprint_detects_length_and_prefix (a b : jsstring) :
  a <> [] -> b <> [] ->
  (Content.hashJobDescription (@Some jsstring a) = Content.hashJobDescription (Some b) <->
   List.length a = List.length b /\ preview a = preview b) /\
  (trim a = a -> trim b = b -> List.length a <= 200 ->
   Content.hashJobDescription (@Some jsstring a) = Content.hashJobDescription (Some b) ->
   a = b).
Proof.
  intros Ha Hb. split; [apply fingerprint_eq_iff; assumption|].
  intros Ta Tb Hlen E. apply fingerprint_eq_iff in E; try assumption.
  destruct E as [El Ep]. unfold preview in Ep.
  rewrite !substring_whole in Ep by lia. congruence.
Qed.

Lemma fingerprint_detects_length_and_prefix_witness :
  Content.hashJobDescription (Some (str "We will sponsor")) <>
  Content.hashJobDescription (Some (str "We will sponsor visas")).
Proof.
  intros E.
  apply (proj1 (@fingerprint_detects_length_and_prefix
                  (str "We will sponsor") (str "We will sponsor visas")
                  ltac:(discriminate) ltac:(discriminate))) in E.
  destruct E as [E _]. discriminate E.
Defined.


(** ** Further properties of [findMatches] *)

Lemma search_first ic r : forall aft bef b e,
  search ic r bef aft = Some (b, e) ->
  forall skipped rest,
    aft = skipped ++ rest ->
    List.length bef + List.length skipped < position b ->
    matcher ic r (Cursor (rev skipped ++ bef) rest) = [].
Proof.
  induction aft as [|a aft IH]; intros bef b e Hs skipped rest Hsplit Hlt; simpl in Hs.
  - destruct (matcher ic r (Cursor bef [])) eqn:E; [discriminate|].
    injection Hs as <- _. unfold position in Hlt. simpl in Hlt. lia.
  - destruct (matcher ic r (Cursor bef (a :: aft))) eqn:E.
    + destruct skipped as [|s skipped].
      * simpl in Hsplit. subst rest. exact E.
      * injection Hsplit as <- ->. simpl.
        rewrite <- app_assoc. apply (IH _ _ _ Hs skipped rest eq_refl).
        simpl in *. lia.
    + injection Hs as <- _. unfold position in Hlt. simpl in Hlt. lia.
Qed.

Lemma search_none ic r aft bef skipped rest :
  search ic r bef aft = None ->
  aft = skipped ++ rest ->
  matcher ic r (Cursor (rev skipped ++ bef) rest) = [].
Proof.
  intros Hs Hsplit.
  destruct (matcher ic r (Cursor (rev skipped ++ bef) rest)) eqn:E; [reflexivity|].
  exfalso. apply (@search_complete ic r aft bef skipped rest Hsplit); [|exact Hs].
  rewrite E. discriminate.
Qed.

Lemma firstn_plus {A} : forall a k (l : list A),
  firstn (a + k) l = firstn a l ++ firstn k (skipn a l).
Proof.
  induction a as [|a IH]; intros k l; [reflexivity|].
  destruct l as [|x l]; simpl.
  - rewrite firstn_nil. reflexivity.
  - rewrite IH. reflexivity.
Qed.

Lemma skipn_plus {A} : forall a k (l : list A),
  skipn (a + k) l = skipn k (skipn a l).
Proof.
  induction a as [|a IH]; intros k l; [reflexivity|].
  destruct l as [|x l]; simpl; [rewrite skipn_nil; reflexivity | apply IH].
Qed.

(** The cursor at a later index, seen from the cursor at [from]. *)
Lemma cursor_at_later text from i :
  from <= i ->
  cursor_at text i =
  Cursor (rev (firstn (i - from) (after (cursor_at text from))) ++
          before (cursor_at text from))
         (skipn (i - from) (after (cursor_at text from))).
Proof.
  intros H. unfold cursor_at. cbn [before after].
  replace i with (from + (i - from)) at 1 2 by lia.
  rewrite firstn_plus, skipn_plus, rev_app_distr. reflexivity.
Qed.

Lemma findMatches_loop_complete p r text :
  compile (source p) = Some r -> 0 < min_len r ->
  forall fuel from ms,
    Analyzer.findMatches_loop fuel p text from = Some ms ->
    forall i, from <= i -> i <= List.length text ->
      matcher (ignoreCase p) r (cursor_at text i) <> [] ->
      exists m, In m ms /\
                Analyzer.index m <= i < Analyzer.index m + Analyzer.length m.
Proof.
  intros Hc Hr. induction fuel as [|f IH]; intros from ms; [discriminate|].
  cbn [Analyzer.findMatches_loop].
  destruct (exec p text from) as [[[b e]|]|] eqn:He; cbn [bind]; [| |discriminate].
  - destruct (Analyzer.findMatches_loop f p text (position e)) as [rest|] eqn:Hrest;
      cbn [bind]; [|discriminate].
    intros [= <-] i Hfrom Hi Hm.
    destruct (@exec_sound _ _ _ _ _ _ Hc He) as (H1 & H2 & H3 & _).
    unfold exec in He. rewrite Hc in He. cbn [bind] in He.
    destruct (Nat.leb_spec from (List.length text)) as [Hle|Hgt]; [|discriminate].
    injection He as He.
    destruct (Nat.lt_ge_cases i (position b)) as [Hlt|Hge].
    + exfalso. apply Hm. rewrite (cursor_at_later text Hfrom).
      eapply search_first; [exact He | symmetry; apply firstn_skipn |].
      rewrite length_firstn. fold (position (cursor_at text from)).
      rewrite cursor_at_position by exact Hle. lia.
    + destruct (Nat.lt_ge_cases i (position e)) as [Hlt'|Hge'].
      * eexists. split; [left; reflexivity|].
        cbn [Analyzer.index Analyzer.length]. rewrite substring_length by lia. lia.
      * destruct (IH _ _ Hrest i Hge' Hi Hm) as (m & Hin & Hrange).
        exists m. split; [right; exact Hin | exact Hrange].
  - intros [= <-] i Hfrom Hi Hm. exfalso. apply Hm.
    unfold exec in He. rewrite Hc in He. cbn [bind] in He.
    destruct (Nat.leb_spec from (List.length text)) as [Hle|Hgt]; [|lia].
    injection He as He. rewrite (cursor_at_later text Hfrom).
    eapply search_none; [exact He | symmetry; apply firstn_skipn].
Qed.

(** X1: on every text, [findMatches] with a catalogue pattern (any pattern
    that cannot match the empty string) returns, and its matches are
    listed from left to right, are not empty, do not overlap, lie inside
    the text, and carry as text the slice of the text they span. *)
Theorem findMatches_left_to_right (p : RegExp) (text : jsstring) :
  consuming p = true ->
  exists ms, Analyzer.findMatches p text = Some ms /\ in_match_order text 0 ms.
Proof.
  intros Hp. destruct (findMatches_total p text Hp) as [ms Hms].
  exists ms. split; [exact Hms | exact (findMatches_order _ _ Hp Hms)].
Qed.

Lemma findMatches_left_to_right_witness :
  exists ms, Analyzer.findMatches (re_i "\bno\s+sponsorship\b")
               (str "No sponsorship. Really no  sponsorship") = Some ms /\
             in_match_order (str "No sponsorship. Really no  sponsorship") 0 ms.
Proof.
  apply findMatches_left_to_right. vm_compute. reflexivity.
Defined.

(** X2: [findMatches] misses no occurrence: wherever a catalogue pattern
    matches in the text, the position lies inside one of the returned
    matches (an occurrence is left out only when it starts inside an
    earlier match). *)
Theorem findMatches_misses_nothing (p : RegExp) (text : jsstring)
    (ms : list Analyzer.Match) (i : nat) :
  consuming p = true ->
  Analyzer.findMatches p text = Some ms ->
  matches_at p text i ->
  exists m, In m ms /\
            Analyzer.index m <= i < Analyzer.index m + Analyzer.length m.
Proof.
  intros Hp Hms (Hi & r & Hc & Hm).
  apply consuming_compiles in Hp. destruct Hp as (r' & Hc' & Hr).
  rewrite Hc in Hc'. injection Hc' as <-.
  unfold Analyzer.findMatches in Hms.
  destruct (global p) eqn:Hg.
  - eapply findMatches_loop_complete; try eassumption. lia.
  - eapply (@findMatches_loop_complete
              {| source := source p; ignoreCase := ignoreCase p; global := true |});
      try eassumption; try lia.
Qed.

Lemma findMatches_misses_nothing_witness :
  exists m, In m [ {| Analyzer.text := str "US citizens only"; Analyzer.index := 5;
                      Analyzer.length := 16 |} ] /\
            Analyzer.index m <= 5 < Analyzer.index m + Analyzer.length m.
Proof.
  apply (@findMatches_misses_nothing (re_i "\bU\.?S\.?\s+citizens?\s+only\b")
           (str "Note US citizens only") _ 5).
  - vm_compute. reflexivity.
  - vm_compute. reflexivity.
  - split; [vm_compute; lia|]. eexists. split; [vm_compute; reflexivity|].
    vm_compute. discriminate.
Defined.

(** ** Score, confidence and evidence of a verdict *)

Lemma Set_spread_nil_iff l : Set_spread [] l = [] <-> l = [].
Proof.
  destruct l as [|x l]; simpl; split; try reflexivity; discriminate.
Qed.

(** X3: in every verdict of [analyze] the score is 0 exactly when the
    confidence is low, and exactly when no keyword was matched; a verdict
    yes has score 3 (high), 1 (medium) or 0 (low); a verdict no has score
    -3 or -1, except that it has the positive score 1 whenever
    ModeratePositive evidence stands beside the StrongNegative evidence
    that decided it. *)
Theorem score_follows_positive_tiers_first (v : JSValue) :
  exists r, Analyzer.analyze v = Some r /\
    (Analyzer.score r = 0%Z <-> Analyzer.confidence r = Analyzer.low) /\
    (Analyzer.score r = 0%Z <-> Analyzer.matchedKeywords r = []) /\
    (Analyzer.status r = Analyzer.yes ->
       (Analyzer.score r = 3%Z /\ Analyzer.confidence r = Analyzer.high) \/
       (Analyzer.score r = 1%Z /\ Analyzer.confidence r = Analyzer.medium) \/
       (Analyzer.score r = 0%Z /\ Analyzer.confidence r = Analyzer.low)) /\
    (Analyzer.status r = Analyzer.no ->
       forall d, Analyzer.details r = Some d ->
         (Analyzer.moderatePositive d = [] ->
            (Analyzer.score r = (-3)%Z /\ Analyzer.confidence r = Analyzer.high) \/
            (Analyzer.score r = (-1)%Z /\ Analyzer.confidence r = Analyzer.medium)) /\
         (Analyzer.moderatePositive d <> [] ->
            Analyzer.score r = 1%Z /\ Analyzer.confidence r = Analyzer.high /\
            Analyzer.strongNegative d <> [])).
Proof.
  destruct (analyze_cases v) as [[_ H]|(text & d & _ & _ & _ & H)].
  - exists Analyzer.no_description. split; [exact H|]. cbn.
    repeat split; try reflexivity; try discriminate.
  - exists (verdict_of d). split; [exact H|].
    unfold verdict_of, Analyzer.decide, Analyzer.score_of.
    cbn [Analyzer.status Analyzer.score Analyzer.confidence
         Analyzer.matchedKeywords Analyzer.details].
    rewrite Set_spread_nil_iff.
    destruct d as [sp mp sn mn].
    cbn [Analyzer.strongPositive Analyzer.moderatePositive
         Analyzer.strongNegative Analyzer.moderateNegative].
    split; [|split; [|split]].
    + destruct sp, sn, mp, mn; cbn; split; intros; congruence.
    + destruct sp, sn, mp, mn; cbn; split; intros; congruence.
    + destruct sp, sn, mp, mn; cbn; intros; try discriminate; auto.
    + intros Hno d' [= <-].
      cbn [Analyzer.strongPositive Analyzer.moderatePositive
           Analyzer.strongNegative Analyzer.moderateNegative].
      destruct sp, sn, mp, mn; cbn in *; try discriminate;
        (split; intros; try congruence; auto);
        repeat split; try reflexivity; discriminate.
Qed.

Lemma score_follows_positive_tiers_first_witness :
  exists r,
    Analyzer.analyze (JSString (str "US citizens only. Relocation assistance offered.")) = Some r /\
    Analyzer.status r = Analyzer.no /\ Analyzer.confidence r = Analyzer.high /\
    Analyzer.score r = 1%Z.
Proof.
  destruct (score_follows_positive_tiers_first
              (JSString (str "US citizens only. Relocation assistance offered.")))
    as (r & Ha & _ & _ & _ & Hno).
  exists r. split; [exact Ha|].
  assert (Hs : Analyzer.status r = Analyzer.no).
  { vm_compute in Ha. injection Ha as <-. reflexivity. }
  assert (Hd : Analyzer.details r =
               Some {| Analyzer.strongPositive := []; 
                       Analyzer.moderatePositive := [str "Relocation assistance"];
                       Analyzer.strongNegative := [str "US citizens only"];
                       Analyzer.moderateNegative := [] |}).
  { vm_compute in Ha. injection Ha as <-. reflexivity. }
  destruct (Hno Hs _ Hd) as [_ Hmp].
  destruct Hmp as (H1 & H2 & _); [discriminate|]. auto.
Defined.

(** ** The context of [isNegated] *)

Lemma substring_length_le (s : jsstring) a b :
  a <= b -> List.length (substring s a b) <= b - a.
Proof.
  intros H. unfold substring. rewrite length_firstn. lia.
Qed.

Lemma contextBefore_length text i :
  List.length (contextBefore text i) <= Nat.min i 50.
Proof.
  unfold contextBefore, toLowerCase. rewrite length_map. cbn [Nat.max].
  pose proof (@substring_length_le text (i - 50) i). lia.
Qed.

Lemma negation_cue_min_len p r :
  In p Analyzer.NEGATION_PATTERNS -> compile (source p) = Some r -> 3 <= min_len r.
Proof.
  intros H Hc.
  repeat (destruct H as [<-|H];
          [vm_compute in Hc; injection Hc as <-; vm_compute; lia|]).
  destruct H.
Qed.

(** X4: a match that starts within the first three code units of the text
    is never negated: [isNegated] returns false for it, whatever the text
    is (the shortest negation cue, "no" and one white space, needs three
    code units before the match). *)
Theorem isNegated_needs_room_for_a_cue (text : jsstring) (matchIndex matchLength : nat) :
  matchIndex < 3 -> Analyzer.isNegated text matchIndex matchLength = Some false.
Proof.
  intros Hlt.
  destruct (isNegated_total text matchIndex matchLength) as [[|] Hb]; [|exact Hb].
  exfalso.
  set (m := {| Analyzer.text := []; Analyzer.index := matchIndex;
               Analyzer.length := matchLength |}).
  assert (Hs : suppressed text m = true).
  { unfold suppressed, m. cbn [Analyzer.index Analyzer.length]. rewrite Hb. reflexivity. }
  apply suppressed_iff in Hs.
  destruct Hs as (tail & (p & r & b & e & Hp & Hc & Hctx & Hin & _) & _).
  apply matcher_reach in Hin. apply reach_after in Hin.
  pose proof (@negation_cue_min_len _ _ Hp Hc) as Hmin.
  pose proof (contextBefore_length text matchIndex) as Hlen.
  cbn [Analyzer.index m] in Hctx. rewrite <- Hctx, length_app in Hlen. lia.
Qed.

Lemma isNegated_needs_room_for_a_cue_witness :
  Analyzer.isNegated (str "a visa sponsorship is not offered") 2 16 = Some false.
Proof. apply isNegated_needs_room_for_a_cue. lia. Defined.

Lemma contextBefore_window (pre ctx post : jsstring) :
  List.length ctx = 50 \/ (pre = [] /\ List.length ctx <= 50) ->
  contextBefore (pre ++ ctx ++ post) (List.length pre + List.length ctx) =
  toLowerCase ctx.
Proof.
  intros H. unfold contextBefore. cbn [Nat.max]. f_equal.
  assert (Hst : List.length pre + List.length ctx - 50 = List.length pre).
  { destruct H as [H|[-> H]]; simpl; lia. }
  rewrite Hst, substring_in_range; [| lia | rewrite !length_app; lia].
  rewrite skipn_app, skipn_all, Nat.sub_diag. cbn [skipn app].
  replace (List.length pre + List.length ctx - List.length pre)
    with (List.length ctx + 0) by lia.
  rewrite firstn_app_2. cbn [firstn]. apply app_nil_r.
Qed.

(** X5: [isNegated] looks only at the 50 code units before the match (at
    all of them when the match starts earlier than index 50): two calls
    whose texts agree on that context give the same answer, whatever
    comes before the context, whatever the match is and whatever
    follows. *)
Theorem isNegated_depends_on_context_only
    (pre1 pre2 ctx post1 post2 : jsstring) (matchLength1 matchLength2 : nat) :
  List.length ctx = 50 \/ (pre1 = [] /\ pre2 = [] /\ List.length ctx <= 50) ->
  Analyzer.isNegated (pre1 ++ ctx ++ post1)
    (List.length pre1 + List.length ctx) matchLength1 =
  Analyzer.isNegated (pre2 ++ ctx ++ post2)
    (List.length pre2 + List.length ctx) matchLength2.
Proof.
  intros H. unfold Analyzer.isNegated.
  fold (contextBefore (pre1 ++ ctx ++ post1) (List.length pre1 + List.length ctx)).
  fold (contextBefore (pre2 ++ ctx ++ post2) (List.length pre2 + List.length ctx)).
  rewrite !contextBefore_window; [reflexivity | |]; destruct H as [H|(H1 & H2 & H3)]; auto.
Qed.

Lemma isNegated_depends_on_context_only_witness :
  Analyzer.isNegated (str "We do not offer visa sponsorship") 16 22 =
  Analyzer.isNegated (str "We do not offer relocation assistance, sorry") 16 21.
Proof.
  apply (@isNegated_depends_on_context_only [] [] (str "We do not offer ")
           (str "visa sponsorship") (str "relocation assistance, sorry") 22 21).
  right. repeat split; simpl; lia.
Defined.

(** ** highlighter.js: [extractSentence] *)

Lemma trimStart_idempotent s : trimStart (trimStart s) = trimStart s.
Proof.
  induction s as [|a s IH]; [reflexivity|]. simpl.
  destruct (is_space a) eqn:E; [exact IH|]. simpl. rewrite E. reflexivity.
Qed.

Lemma trimStart_snoc c : is_space c = false ->
  forall l, trimStart (l ++ [c]) = trimStart l ++ [c].
Proof.
  intros Hc. induction l as [|a l IH]; simpl.
  - rewrite Hc. reflexivity.
  - destruct (is_space a); [exact IH | reflexivity].
Qed.

Lemma trimStart_head s c r : trimStart s = c :: r -> is_space c = false.
Proof.
  induction s as [|a s IH]; simpl; [discriminate|].
  destruct (is_space a) eqn:E; [exact IH | intros [= <- _]; exact E].
Qed.


Lemma trim_trimmed s : trimmed (trim s).
Proof.
  unfold trimmed, trim. split.
  - destruct (trimStart s) as [|c t] eqn:E; [reflexivity|].
    pose proof (trimStart_head _ E) as Hc.
    cbn [rev]. rewrite (@trimStart_snoc c Hc), rev_app_distr. cbn [rev app].
    simpl. rewrite Hc. reflexivity.
  - rewrite rev_involutive. apply trimStart_idempotent.
Qed.


Lemma exec_compiled_sound ic r text from b e :
  exec_compiled ic r text from = Some (b, e) ->
  from <= position b /\ position b <= position e /\
  position e <= List.length text /\
  rev (before b) ++ after b = text /\ In e (matcher ic r b).
Proof.
  unfold exec_compiled.
  destruct (Nat.leb_spec from (List.length text)) as [Hi|Hi]; [|discriminate].
  intros Hs. apply search_sound in Hs. destruct Hs as [(sk & Hsk) Hin].
  pose proof (matcher_reach _ _ _ _ Hin) as Hr.
  apply (@reach_weaken _ 0) in Hr; [|lia].
  assert (Hr0 : reach 0 (cursor_at text from) b).
  { exists sk. split; [|lia]. destruct Hsk as [Hb Ha]. split; simpl in *; assumption. }
  pose proof (reach_position Hr0) as P1. pose proof (reach_position Hr) as P2.
  pose proof (reach_text Hr0) as T1. pose proof (reach_text Hr) as T2.
  rewrite cursor_at_text in T1. rewrite T1 in T2.
  rewrite cursor_at_position in P1 by assumption.
  repeat split; try lia; try assumption.
  rewrite <- T2. unfold position. rewrite length_app, length_rev. lia.
Qed.

(** The sentence-end pattern matches from every index of the text, at the
    latest at its end. *)
Lemma sentence_end_found text from :
  from <= List.length text ->
  exec_compiled false Highlighter.sentenceEndRegex text from <> None.
Proof.
  intros H. unfold exec_compiled.
  destruct (Nat.leb_spec from (List.length text)) as [_|Hgt]; [|lia].
  apply (@search_complete false _ _ _ (after (cursor_at text from)) []).
  - rewrite app_nil_r. reflexivity.
  - cbn. discriminate.
Qed.

(** A match of the sentence-end pattern is not empty unless it is the end
    of the text. *)
Lemma sentence_end_progress b e :
  In e (matcher false Highlighter.sentenceEndRegex b) ->
  position b < position e \/ (position e = position b /\ after b = []).
Proof.
  unfold Highlighter.sentenceEndRegex. cbn [matcher]. intros Hin.
  apply in_app_or in Hin. destruct Hin as [Hin|Hin].
  - left.
    change (In e (matcher false
                    (Seq (Alt (Char "."%char) (Alt (Char "!"%char) (Char "?"%char)))
                         (Seq (Quant Whitespace 1 None) Empty)) b)) in Hin.
    apply matcher_reach in Hin. apply reach_position in Hin. simpl in Hin. lia.
  - right. destruct (after b) eqn:E; cbn in Hin.
    + destruct Hin as [<-|[]]. auto.
    + destruct Hin.
Qed.

Lemma sentence_start_returns text matchIndex :
  matchIndex <= List.length text ->
  forall fuel from,
    from <= List.length text ->
    List.length text - from + 1 < fuel ->
    exists start,
      Highlighter.sentence_start fuel text matchIndex from = Some start /\
      (start = 0 \/ matchIndex <= start) /\ start <= List.length text.
Proof.
  intros Hmi. induction fuel as [|f IH]; intros from Hfrom Hfuel; [lia|].
  cbn [Highlighter.sentence_start].
  destruct (exec_compiled false Highlighter.sentenceEndRegex text from) as [[b e]|] eqn:He.
  - destruct (exec_compiled_sound _ _ _ _ He) as (H1 & H2 & H3 & _ & Hin).
    destruct (Nat.leb_spec matchIndex (position e)) as [Hle|Hgt].
    + eexists. split; [reflexivity|].
      destruct (position b =? 0); split; auto; lia.
    + apply sentence_end_progress in Hin.
      destruct Hin as [Hlt|[Heq Hend]].
      * apply IH; lia.
      * exfalso.
        destruct (exec_compiled_sound _ _ _ _ He) as (_ & _ & _ & Htext & _).
        rewrite Hend, app_nil_r in Htext.
        assert (position b = List.length text)
          by (unfold position; rewrite <- Htext, length_rev; reflexivity).
        lia.
  - exists 0. split; [reflexivity|]. split; [left; reflexivity | lia].
Qed.

Lemma sentence_start_diverges text matchIndex :
  List.length text < matchIndex ->
  forall fuel from,
    from <= List.length text ->
    Highlighter.sentence_start fuel text matchIndex from = None.
Proof.
  intros Hmi. induction fuel as [|f IH]; intros from Hfrom; [reflexivity|].
  cbn [Highlighter.sentence_start].
  destruct (exec_compiled false Highlighter.sentenceEndRegex text from) as [[b e]|] eqn:He.
  - destruct (exec_compiled_sound _ _ _ _ He) as (H1 & H2 & H3 & _).
    destruct (Nat.leb_spec matchIndex (position e)) as [Hle|Hgt]; [lia|].
    apply IH. exact H3.
  - exfalso. exact (sentence_end_found text Hfrom He).
Qed.

(** X6: [extractSentence] returns exactly when [matchIndex] is an index of
    the text or its length.  For a larger [matchIndex] the loop that looks
    for the sentence start never ends: it finds the empty match at the end
    of the text again and again, and no number of iterations is enough. *)
Theorem extractSentence_returns_iff_index_in_text
    (text : jsstring) (matchIndex matchLength : nat) :
  (matchIndex <= List.length text ->
   exists r, Highlighter.extractSentence text matchIndex matchLength = Some r) /\
  (List.length text < matchIndex ->
   forall fuel,
     Highlighter.extractSentence_within fuel text matchIndex matchLength = None).
Proof.
  split.
  - intros Hmi. unfold Highlighter.extractSentence, Highlighter.extractSentence_within.
    destruct (@sentence_start_returns text matchIndex Hmi (List.length text + 2) 0)
      as (start & Hs & _); [lia | lia |].
    rewrite Hs. cbn [bind]. eexists. reflexivity.
  - intros Hmi fuel. unfold Highlighter.extractSentence_within.
    rewrite (@sentence_start_diverges text matchIndex Hmi); [reflexivity | lia].
Qed.

Lemma extractSentence_returns_iff_index_in_text_witness :
  (exists r, Highlighter.extractSentence (str "Foo. no sponsorship here. Bar") 5 14 = Some r) /\
  Highlighter.extractSentence_within 1000 (str "abc") 4 1 = None.
Proof.
  split.
  - apply (proj1 (extractSentence_returns_iff_index_in_text
                    (str "Foo. no sponsorship here. Bar") 5 14)).
    simpl. lia.
  - apply (proj2 (extractSentence_returns_iff_index_in_text (str "abc") 4 1)).
    simpl. lia.
Defined.



(** ** From the verdict to the text to highlight *)

Lemma starts_with_app p post : starts_with p (p ++ post) = true.
Proof.
  induction p as [|a p IH]; [reflexivity|]. simpl.
  unfold char_eqb. rewrite Ascii.eqb_refl, IH. reflexivity.
Qed.

Lemma indexOf_from_found p post : forall pre k0,
  exists k, indexOf_from (pre ++ p ++ post) p k0 = Some k /\ k <= k0 + List.length pre.
Proof.
  induction pre as [|a pre IH]; intros k0.
  - exists k0. cbn [app]. split; [|simpl; lia].
    destruct (p ++ post) eqn:E; simpl; rewrite <- ?E, starts_with_app; reflexivity.
  - cbn [app indexOf_from].
    destruct (starts_with p (a :: pre ++ p ++ post)).
    + exists k0. split; [reflexivity | lia].
    + destruct (IH (S k0)) as (k & Hk & Hle). exists k. split; [exact Hk | simpl; lia].
Qed.





(** ** content.js: change detection and navigation *)

Lemma processJobPage_classifies force st pg :
  Content.isProcessing st && negb force = false ->
  Content.isLinkedInJobPage pg = true ->
  Content.falsy (Content.extractJobDescription pg) = false ->
  (force = true \/
   Content.extractJobId pg <> Content.currentJobId st \/
   Content.hashJobDescription (Content.extractJobDescription pg) <>
     Content.currentJobDescriptionHash st \/
   Content.badge pg = false) ->
  exists v,
    Analyzer.analyze (Content.value_of (Content.extractJobDescription pg)) = Some v /\
    Content.processJobPage force st pg = Some (synchronised pg, rendering pg v).
Proof.
  intros Hbusy Hpage Hdesc Hchange.
  destruct (analyze_total (Content.value_of (Content.extractJobDescription pg))) as [v Hv].
  exists v. split; [exact Hv|].
  unfold Content.processJobPage. rewrite Hbusy, Hpage, Hdesc, Hv. cbn [negb bind].
  assert (Hgate : negb force &&
            negb (negb (Content.strict_eq (Content.extractJobId pg) (Content.currentJobId st))) &&
            negb (negb (Content.strict_eq
                          (Content.hashJobDescription (Content.extractJobDescription pg))
                          (Content.currentJobDescriptionHash st))) &&
            Content.badge pg = false).
  { destruct Hchange as [->|[H|[H|H]]].
    - reflexivity.
    - apply strict_eq_false in H. rewrite H. cbn. rewrite andb_false_r. reflexivity.
    - apply strict_eq_false in H. rewrite H. cbn. rewrite !andb_false_r. reflexivity.
    - rewrite H. apply andb_false_r. }
  rewrite Hgate. reflexivity.
Qed.

Lemma processJobPage_reclassified_inv force st pg st' effects :
  Content.processJobPage force st pg = Some (st', effects) ->
  reclassified effects = true ->
  Content.isLinkedInJobPage pg = true /\
  Content.falsy (Content.extractJobDescription pg) = false /\
  st' = synchronised pg.
Proof.
  unfold Content.processJobPage.
  destruct (Content.isProcessing st && negb force); [intros [= <- <-]; discriminate|].
  destruct (Content.isLinkedInJobPage pg); cbn [negb]; [|intros [= <- <-]; discriminate].
  match goal with |- (if ?c then _ else _) = _ -> _ => destruct c end;
    [intros [= <- <-]; discriminate|].
  destruct (Content.falsy (Content.extractJobDescription pg)).
  - match goal with |- (if ?c then _ else _) = _ -> _ => destruct c end;
      intros [= <- <-]; discriminate.
  - destruct (Analyzer.analyze _) as [v|]; cbn [bind]; [|discriminate].
    intros [= <- <-] _. auto.
Qed.

(** X9: once [processJobPage] has classified a page (forced or not), an
    unforced call on the same page with the badge in place does nothing:
    no effect is issued and the stored identity stays; with the badge
    missing the same call classifies the page again. *)
Theorem processJobPage_settles (force : bool) (st st' : Content.State)
    (pg : Content.Page) (effects : list Content.Effect) :
  Content.processJobPage force st pg = Some (st', effects) ->
  reclassified effects = true ->
  Content.processJobPage false st' (with_badge pg true) = Some (st', []) /\
  exists effects',
    Content.processJobPage false st' (with_badge pg false) = Some (st', effects') /\
    reclassified effects' = true.
Proof.
  intros Hrun Hre.
  destruct (processJobPage_reclassified_inv _ _ _ Hrun Hre) as (Hpage & Hdesc & ->).
  split.
  - unfold Content.processJobPage.
    cbn [synchronised with_badge Content.isProcessing Content.isLinkedInJobPage
         Content.extractJobId Content.extractJobDescription Content.badge
         Content.currentJobId Content.currentJobDescriptionHash andb negb].
    rewrite Hpage. cbn [negb].
    rewrite (proj2 (strict_eq_spec _ _) eq_refl), (proj2 (strict_eq_spec _ _) eq_refl).
    reflexivity.
  - destruct (@processJobPage_classifies false (synchronised pg) (with_badge pg false))
      as (v & _ & Hv); try assumption; try reflexivity.
    + right. right. right. reflexivity.
    + exists (rendering (with_badge pg false) v). split; [exact Hv|].
      cbn. reflexivity.
Qed.

Lemma processJobPage_settles_witness :
  exists st' effects,
    Content.processJobPage true (idle None None)
      (job_page (Some (str "111")) (Some (str "We will sponsor visas.")) false) =
      Some (st', effects) /\
    Content.processJobPage false st'
      (job_page (Some (str "111")) (Some (str "We will sponsor visas.")) true) =
      Some (st', []).
Proof.
  destruct (Content.processJobPage true (idle None None)
              (job_page (Some (str "111")) (Some (str "We will sponsor visas.")) false))
    as [[st' effects]|] eqn:E; [|vm_compute in E; discriminate].
  exists st', effects. split; [reflexivity|].
  refine (proj1 (processJobPage_settles _ _ _ E _)).
  vm_compute in E. injection E as <- <-. reflexivity.
Defined.

(** X10: a check by [checkForJobChange] of an idle monitor on a job page
    with an extractable description leaves the stored job id and
    fingerprint equal to those of the page, whatever was stored before,
    and a second check on the same page issues no effect, whether the
    badge is present or not. *)
Theorem checkForJobChange_synchronises (st : Content.State) (pg : Content.Page) :
  Content.isProcessing st = false ->
  Content.isLinkedInJobPage pg = true ->
  Content.falsy (Content.extractJobDescription pg) = false ->
  exists effects,
    Content.checkForJobChange st pg = Some (synchronised pg, effects) /\
    forall present,
      Content.checkForJobChange (synchronised pg) (with_badge pg present) =
      Some (synchronised pg, []).
Proof.
  intros Hidle Hpage Hdesc.
  assert (Hsettled : forall present,
    Content.checkForJobChange (synchronised pg) (with_badge pg present) =
    Some (synchronised pg, [])).
  { intros present. apply checkForJobChange_unchanged; reflexivity. }
  unfold Content.checkForJobChange. rewrite Hidle.
  destruct (Content.strict_eq (Content.extractJobId pg) (Content.currentJobId st)) eqn:E1;
    cbn [negb orb].
  - destruct (Content.strict_eq
                (Content.hashJobDescription (Content.extractJobDescription pg))
                (Content.currentJobDescriptionHash st)) eqn:E2; cbn [negb].
    + apply strict_eq_spec in E1. apply strict_eq_spec in E2.
      exists []. split; [|exact Hsettled].
      destruct st as [i h b]. cbn in *. subst. reflexivity.
    + destruct (@processJobPage_classifies true st pg) as (v & _ & Hv); auto.
      { rewrite andb_false_r. reflexivity. }
      rewrite Hv. eexists. split; [reflexivity | exact Hsettled].
  - destruct (@processJobPage_classifies true
                {| Content.currentJobId := None;
                   Content.currentJobDescriptionHash := None;
                   Content.isProcessing := false |}
                (with_badge pg false)) as (v & _ & Hv); auto.
    unfold with_badge in Hv. rewrite Hv. cbn [bind fst snd].
    eexists. split; [reflexivity | exact Hsettled].
Qed.

Lemma checkForJobChange_synchronises_witness :
  exists effects,
    Content.checkForJobChange (idle (Some (str "111")) None)
      (job_page (Some (str "222")) (Some (str "US citizens only")) true) =
    Some (synchronised (job_page (Some (str "222")) (Some (str "US citizens only")) true),
          effects).
Proof.
  destruct (@checkForJobChange_synchronises (idle (Some (str "111")) None)
              (job_page (Some (str "222")) (Some (str "US citizens only")) true)
              eq_refl eq_refl eq_refl) as (effects & H & _).
  exists effects. exact H.
Defined.

(** X11: a missing badge alone is repaired by the unforced
    [processJobPage] but not by [checkForJobChange]: with the stored job
    id and fingerprint equal to those of the page and the badge gone, the
    periodic check issues no effect, while the unforced call classifies
    the page and injects the badge again. *)
Theorem missing_badge_not_repaired_by_check (st : Content.State) (pg : Content.Page) :
  Content.isProcessing st = false ->
  Content.isLinkedInJobPage pg = true ->
  Content.falsy (Content.extractJobDescription pg) = false ->
  Content.extractJobId pg = Content.currentJobId st ->
  Content.hashJobDescription (Content.extractJobDescription pg) =
    Content.currentJobDescriptionHash st ->
  Content.badge pg = false ->
  Content.checkForJobChange st pg = Some (st, []) /\
  exists v,
    Analyzer.analyze (Content.value_of (Content.extractJobDescription pg)) = Some v /\
    Content.processJobPage false st pg =
      Some (st, [Content.InjectBadge v;
                 match Analyzer.status v with
                 | Analyzer.no =>
                     Content.SetTimeout
                       (Content.Highlight v (Content.extractJobDescription pg)) 100
                 | _ => Content.RemoveHighlights
                 end]).
Proof.
  intros Hidle Hpage Hdesc Hid Hhash Hbadge. split.
  - apply checkForJobChange_unchanged; assumption.
  - destruct (@processJobPage_classifies false st pg) as (v & Ha & Hv); auto.
    { rewrite Hidle. reflexivity. }
    exists v. split; [exact Ha|]. rewrite Hv. unfold rendering, synchronised.
    rewrite Hbadge, Hid, Hhash. destruct st as [i h b]. cbn in *. subst. reflexivity.
Qed.

Lemma missing_badge_not_repaired_by_check_witness :
  Content.checkForJobChange
    (synchronised (job_page (Some (str "111")) (Some (str "We can sponsor")) false))
    (job_page (Some (str "111")) (Some (str "We can sponsor")) false) =
  Some (synchronised (job_page (Some (str "111")) (Some (str "We can sponsor")) false), []).
Proof.
  refine (proj1 (@missing_badge_not_repaired_by_check
            (synchronised (job_page (Some (str "111")) (Some (str "We can sponsor")) false))
            (job_page (Some (str "111")) (Some (str "We can sponsor")) false)
            eq_refl eq_refl eq_refl eq_refl eq_refl eq_refl)).
Defined.

(** X12: [handleUrlChange] does nothing when the job id of the page is the
    stored one; otherwise it forgets the stored identity at once, removes
    badge and highlights, and schedules a forced call after 200 ms; when
    that call finds a job page with an extractable description and no
    badge, it stores the identity of that page, injects the badge with
    the verdict of that description, and leaves the monitor idle. *)
Theorem navigation_clears_then_renders (st : Content.State) (pg pg' : Content.Page) :
  (Content.extractJobId pg = Content.currentJobId st ->
   Content.handleUrlChange st pg = (st, [])) /\
  (Content.extractJobId pg <> Content.currentJobId st ->
   exists cleared,
     Content.handleUrlChange st pg =
       (cleared, [Content.RemoveBadge; Content.RemoveHighlights;
                  Content.SetTimeout (Content.ProcessJobPage true) 200]) /\
     Content.currentJobId cleared = None /\
     Content.currentJobDescriptionHash cleared = None /\
     (Content.isLinkedInJobPage pg' = true ->
      Content.falsy (Content.extractJobDescription pg') = false ->
      Content.badge pg' = false ->
      exists v,
        Analyzer.analyze (Content.value_of (Content.extractJobDescription pg')) = Some v /\
        Content.processJobPage true cleared pg' =
          Some (synchronised pg', rendering pg' v) /\
        hd_error (rendering pg' v) = Some (Content.InjectBadge v))).
Proof.
  unfold Content.handleUrlChange. split.
  - intros H. apply strict_eq_spec in H. rewrite H. reflexivity.
  - intros H. apply strict_eq_false in H. rewrite H. cbn [negb].
    eexists. split; [reflexivity|]. split; [reflexivity|]. split; [reflexivity|].
    intros Hpage Hdesc Hbadge.
    destruct (@processJobPage_classifies true
                {| Content.currentJobId := None;
                   Content.currentJobDescriptionHash := None;
                   Content.isProcessing := Content.isProcessing st |} pg')
      as (v & Ha & Hv); auto.
    { apply andb_false_r. }
    exists v. split; [exact Ha|]. split; [exact Hv|].
    unfold rendering. rewrite Hbadge. reflexivity.
Qed.

Lemma navigation_clears_then_renders_witness :
  exists cleared,
    Content.handleUrlChange
      (synchronised (job_page (Some (str "111")) (Some (str "We can sponsor")) true))
      (job_page (Some (str "222")) None true) =
      (cleared, [Content.RemoveBadge; Content.RemoveHighlights;
                 Content.SetTimeout (Content.ProcessJobPage true) 200]) /\
    Content.currentJobId cleared = None.
Proof.
  destruct (proj2 (navigation_clears_then_renders
              (synchronised (job_page (Some (str "111")) (Some (str "We can sponsor")) true))
              (job_page (Some (str "222")) None true)
              (job_page (Some (str "222")) None true)))
    as (cleared & H1 & H2 & _); [discriminate|].
  exists cleared. split; assumption.
Defined.

(** ** badge.js: the retries of [injectBadge] *)

Lemma scheduled_retry_removed dom l :
  BadgeManager.scheduled_retry (BadgeManager.removeBadge dom ++ l) =
  BadgeManager.scheduled_retry l.
Proof.
  unfold BadgeManager.removeBadge.
  destruct (BadgeManager.existingBadge dom), (BadgeManager.existingContainer dom),
    (BadgeManager.Highlighter_defined dom); reflexivity.
Qed.

Lemma total_delay_app l1 l2 : total_delay (l1 ++ l2) = total_delay l1 + total_delay l2.
Proof.
  induction l1 as [|a l1 IH]; [reflexivity|]. destruct a; simpl; rewrite IH; lia.
Qed.

Lemma total_delay_removed dom : total_delay (BadgeManager.removeBadge dom) = 0.
Proof.
  unfold BadgeManager.removeBadge.
  destruct (BadgeManager.existingBadge dom), (BadgeManager.existingContainer dom),
    (BadgeManager.Highlighter_defined dom); reflexivity.
Qed.

(** One call of [injectBadge]: whether it schedules a retry, what it
    returns, and the delay it adds. *)
Lemma injectBadge_call dom v retryCount :
  let '(actions, injected) := BadgeManager.injectBadge dom v retryCount in
  BadgeManager.scheduled_retry actions =
    (if negb (BadgeManager.findBadgeContainer dom) && (retryCount <? 3)
     then Some (retryCount + 1, 500 * (retryCount + 1)) else None) /\
  total_delay actions =
    (if negb (BadgeManager.findBadgeContainer dom) && (retryCount <? 3)
     then 500 * (retryCount + 1) else 0) /\
  injected =
    BadgeManager.findBadgeContainer dom ||
    (negb (retryCount <? 3) && BadgeManager.body dom).
Proof.
  unfold BadgeManager.injectBadge.
  destruct (BadgeManager.findBadgeContainer dom); cbn [negb andb orb].
  - destruct (BadgeManager.jobTitle dom);
      rewrite scheduled_retry_removed, total_delay_app, total_delay_removed;
      repeat split.
  - destruct (retryCount <? 3); cbn [negb andb].
    + rewrite scheduled_retry_removed, total_delay_app, total_delay_removed.
      repeat split. simpl. lia.
    + destruct (BadgeManager.body dom).
      * rewrite scheduled_retry_removed, total_delay_app, total_delay_removed.
        repeat split.
      * rewrite <- (app_nil_r (BadgeManager.removeBadge dom)) at 1.
        rewrite scheduled_retry_removed, total_delay_removed. repeat split.
Qed.

Lemma injectBadge_chain_from doms v : forall fuel retryCount,
  retryCount <= 3 -> 3 < fuel + retryCount ->
  exists actions injected,
    BadgeManager.injectBadge_chain fuel doms v retryCount = Some (actions, injected) /\
    total_delay actions + 250 * (retryCount * (retryCount + 1)) <= 3000 /\
    (injected = false <->
     (forall k, retryCount <= k -> k <= 3 ->
                BadgeManager.findBadgeContainer (doms k) = false) /\
     BadgeManager.body (doms 3) = false).
Proof.
  induction fuel as [|f IH]; intros retryCount Hrc Hfuel; [lia|].
  cbn [BadgeManager.injectBadge_chain].
  pose proof (injectBadge_call (doms retryCount) v retryCount) as Hcall.
  destruct (BadgeManager.injectBadge (doms retryCount) v retryCount) as [actions injected].
  destruct Hcall as (Hretry & Hdelay & Hinj). rewrite Hretry.
  destruct (BadgeManager.findBadgeContainer (doms retryCount)) eqn:Hfound;
    cbn [negb andb orb] in *.
  - exists actions, injected. split; [reflexivity|]. split; [nia|].
    subst injected. split; [discriminate|].
    intros [Hall _]. rewrite (Hall retryCount) in Hfound; [discriminate | lia | lia].
  - destruct (Nat.ltb_spec retryCount 3) as [Hlt|Hge]; cbn [negb andb] in *.
    + destruct (IH (retryCount + 1)) as (actions' & injected' & Hchain & Hbound & Hiff);
        [lia | lia |].
      rewrite Hchain. cbn [bind fst snd].
      exists (actions ++ actions'), injected'. split; [reflexivity|].
      split; [rewrite total_delay_app; nia|].
      rewrite Hiff. split.
      * intros [Hall Hbody]. split; [|exact Hbody].
        intros k Hk1 Hk2. destruct (Nat.eq_dec k retryCount) as [->|Hne];
          [exact Hfound | apply Hall; lia].
      * intros [Hall Hbody]. split; [|exact Hbody].
        intros k Hk1 Hk2. apply Hall; lia.
    + exists actions, injected. split; [reflexivity|]. split; [nia|].
      assert (retryCount = 3) by lia. subst retryCount. subst injected. split.
      * intros Hbody. split; [|exact Hbody].
        intros k Hk1 Hk2. assert (k = 3) by lia. subst k. exact Hfound.
      * intros [_ Hbody]. exact Hbody.
Qed.

Lemma injectBadge_chain_more_fuel doms v : forall fuel1 fuel2 retryCount r,
  BadgeManager.injectBadge_chain fuel1 doms v retryCount = Some r ->
  fuel1 <= fuel2 ->
  BadgeManager.injectBadge_chain fuel2 doms v retryCount = Some r.
Proof.
  induction fuel1 as [|f1 IH]; intros fuel2 retryCount r; [discriminate|].
  destruct fuel2 as [|f2]; [lia|]. cbn [BadgeManager.injectBadge_chain].
  destruct (BadgeManager.injectBadge (doms retryCount) v retryCount) as [acts inj].
  destruct (BadgeManager.scheduled_retry acts) as [[next d]|]; [|auto].
  destruct (BadgeManager.injectBadge_chain f1 doms v next) as [r1|] eqn:E1;
    cbn [bind]; [|discriminate].
  intros [= <-] Hle. rewrite (IH f2 next r1 E1) by lia. reflexivity.
Qed.

(** X13: the retries of [injectBadge] are bounded: whatever the document
    holds at each attempt, the chain started with [retryCount = 0] ends
    within four calls; the delays it waits add up to at most 3000 ms; and
    it ends without a badge only if no container was found at any of the
    four attempts and the document has no body at the last one. *)
Theorem injectBadge_retries_are_bounded
    (doms : nat -> BadgeManager.Dom) (v : Analyzer.Verdict) :
  exists actions injected,
    (forall fuel, 4 <= fuel ->
       BadgeManager.injectBadge_chain fuel doms v 0 = Some (actions, injected)) /\
    total_delay actions <= 3000 /\
    (injected = false <->
     (forall k, k <= 3 -> BadgeManager.findBadgeContainer (doms k) = false) /\
     BadgeManager.body (doms 3) = false).
Proof.
  destruct (@injectBadge_chain_from doms v 4 0) as (actions & injected & H4 & Hd & Hiff);
    [lia | lia |].
  exists actions, injected. split; [|split].
  - intros fuel Hfuel. eapply injectBadge_chain_more_fuel; eassumption.
  - lia.
  - rewrite Hiff. split; intros [Hall Hb]; (split; [|exact Hb]); intros k Hk;
      [| intros Hk']; apply Hall; lia.
Qed.

Lemma injectBadge_retries_are_bounded_witness :
  exists actions,
    BadgeManager.injectBadge_chain 10
      (fun k => {| BadgeManager.existingBadge := false;
                   BadgeManager.existingContainer := false;
                   BadgeManager.Highlighter_defined := true;
                   BadgeManager.findBadgeContainer := 2 <=? k;
                   BadgeManager.jobTitle := true;
                   BadgeManager.body := true |})
      Analyzer.no_description 0 = Some (actions, true) /\
    total_delay actions = 1500.
Proof.
  destruct (injectBadge_retries_are_bounded
              (fun k => {| BadgeManager.existingBadge := false;
                           BadgeManager.existingContainer := false;
                           BadgeManager.Highlighter_defined := true;
                           BadgeManager.findBadgeContainer := 2 <=? k;
                           BadgeManager.jobTitle := true;
                           BadgeManager.body := true |})
              Analyzer.no_description) as (actions & injected & Hrun & _ & _).
  specialize (Hrun 10 ltac:(lia)). exists actions.
  assert (E := Hrun). vm_compute in E. injection E as <- <-.
  split; [exact Hrun | reflexivity].
Defined.

(** ** The classification does not depend on letter case *)

Lemma canonicalize_lower a : canonicalize true (lower_char a) = canonicalize true a.
Proof. destruct a as [[] [] [] [] [] [] [] []]; reflexivity. Qed.

Lemma is_space_lower a : is_space (lower_char a) = is_space a.
Proof. destruct a as [[] [] [] [] [] [] [] []]; reflexivity. Qed.

Lemma is_line_terminator_lower a :
  is_line_terminator (lower_char a) = is_line_terminator a.
Proof. destruct a as [[] [] [] [] [] [] [] []]; reflexivity. Qed.

Lemma lower_char_idempotent a : lower_char (lower_char a) = lower_char a.
Proof. destruct a as [[] [] [] [] [] [] [] []]; reflexivity. Qed.

Lemma toLowerCase_idempotent s : toLowerCase (toLowerCase s) = toLowerCase s.
Proof.
  unfold toLowerCase. rewrite map_map. apply map_ext. exact lower_char_idempotent.
Qed.

Lemma position_lower x : position (lower_cursor x) = position x.
Proof. unfold position, lower_cursor, toLowerCase. cbn [before]. apply length_map. Qed.

Lemma advance_lower (P : ascii -> bool) x :
  (forall a, P (lower_char a) = P a) ->
  advance P (lower_cursor x) = map lower_cursor (advance P x).
Proof.
  intros HP. destruct x as [bef [|a rest]]; [reflexivity|].
  unfold advance, lower_cursor, toLowerCase. cbn [after before map].
  rewrite HP. destruct (P a); reflexivity.
Qed.

Lemma map_flat_map {A B C} (f : B -> C) (g : A -> list B) l :
  map f (flat_map g l) = flat_map (fun x => map f (g x)) l.
Proof.
  induction l as [|a l IH]; [reflexivity|]. simpl. rewrite map_app, IH. reflexivity.
Qed.

Lemma flat_map_map {A B C} (f : A -> B) (g : B -> list C) l :
  flat_map g (map f l) = flat_map (fun x => g (f x)) l.
Proof.
  induction l as [|a l IH]; [reflexivity|]. simpl. rewrite IH. reflexivity.
Qed.

Lemma repeat_matcher_lower (m : cursor -> list cursor) :
  (forall x, m (lower_cursor x) = map lower_cursor (m x)) ->
  forall fuel min max x,
    repeat_matcher m fuel min max (lower_cursor x) =
    map lower_cursor (repeat_matcher m fuel min max x).
Proof.
  intros Hm. induction fuel as [|f IH]; intros min max x; [reflexivity|].
  cbn [repeat_matcher].
  assert (Hagain :
    flat_map (fun y => if (min =? 0) && (position y =? position (lower_cursor x)) then []
                       else repeat_matcher m f (pred min) (option_map pred max) y)
             (m (lower_cursor x)) =
    map lower_cursor
      (flat_map (fun y => if (min =? 0) && (position y =? position x) then []
                          else repeat_matcher m f (pred min) (option_map pred max) y)
                (m x))).
  { rewrite Hm, flat_map_map, map_flat_map. apply flat_map_ext. intros y.
    rewrite !position_lower. destruct ((min =? 0) && (position y =? position x));
      [reflexivity | apply IH]. }
  rewrite Hagain. destruct max as [[|k]|]; [reflexivity| |];
    destruct (min =? 0); try reflexivity; rewrite map_app; reflexivity.
Qed.

(** Matching with the flag [i] commutes with lower-casing the subject. *)
Lemma matcher_lower r : forall x,
  matcher true r (lower_cursor x) = map lower_cursor (matcher true r x).
Proof.
  induction r as [|c| | |cs| | |r1 IH1 r2 IH2|r1 IH1 r2 IH2|r IH min max];
    intros x; cbn [matcher].
  - reflexivity.
  - apply advance_lower. intros a. unfold same_char. rewrite canonicalize_lower. reflexivity.
  - apply advance_lower. intros a. rewrite is_line_terminator_lower. reflexivity.
  - apply advance_lower. exact is_space_lower.
  - apply advance_lower. intros a. f_equal. induction cs as [|c cs IHcs]; [reflexivity|].
    cbn [existsb]. rewrite IHcs. unfold same_char. rewrite canonicalize_lower. reflexivity.
  - assert (Hb : word_before (lower_cursor x) = word_before x).
    { destruct x as [[|a bef] aft]; [reflexivity|]. apply is_word_char_lower. }
    assert (Ha : word_after (lower_cursor x) = word_after x).
    { destruct x as [bef [|a aft]]; [reflexivity|]. apply is_word_char_lower. }
    rewrite Hb, Ha. destruct (xorb _ _); reflexivity.
  - destruct x as [bef [|a aft]]; reflexivity.
  - rewrite IH1, flat_map_map, map_flat_map. apply flat_map_ext. exact IH2.
  - rewrite IH1, IH2, map_app. reflexivity.
  - replace (List.length (after (lower_cursor x))) with (List.length (after x))
      by (unfold lower_cursor, toLowerCase; cbn [after]; rewrite length_map; reflexivity).
    apply repeat_matcher_lower. exact IH.
Qed.

Lemma search_lower r : forall aft bef,
  search true r (toLowerCase bef) (toLowerCase aft) =
  option_map lower_ends (search true r bef aft).
Proof.
  induction aft as [|a aft IH]; intros bef.
  - change (toLowerCase []) with (@nil ascii). cbn [search].
    change (Cursor (toLowerCase bef) []) with (lower_cursor (Cursor bef [])).
    rewrite matcher_lower. destruct (matcher true r (Cursor bef [])); reflexivity.
  - change (toLowerCase (a :: aft)) with (lower_char a :: toLowerCase aft).
    cbn [search].
    change (Cursor (toLowerCase bef) (lower_char a :: toLowerCase aft))
      with (lower_cursor (Cursor bef (a :: aft))).
    rewrite matcher_lower. destruct (matcher true r (Cursor bef (a :: aft))); [|reflexivity].
    cbn [map]. apply (IH (a :: bef)).
Qed.

Lemma substring_lower s a b :
  substring (toLowerCase s) a b = toLowerCase (substring s a b).
Proof.
  unfold substring, toLowerCase. rewrite length_map, skipn_map, firstn_map. reflexivity.
Qed.

Lemma exec_lower p text from :
  ignoreCase p = true ->
  exec p (toLowerCase text) from =
  option_map (option_map lower_ends) (exec p text from).
Proof.
  intros Hi. unfold exec. destruct (compile (source p)) as [r|]; [|reflexivity].
  cbn [bind option_map]. rewrite Hi. f_equal.
  unfold toLowerCase at 1. rewrite length_map.
  destruct (from <=? List.length text); [|reflexivity].
  unfold cursor_at. cbn [before after].
  unfold toLowerCase. rewrite firstn_map, skipn_map, <- map_rev. apply search_lower.
Qed.

Lemma findMatches_loop_lower p text :
  ignoreCase p = true ->
  forall fuel from,
    Analyzer.findMatches_loop fuel p (toLowerCase text) from =
    option_map (map lower_match) (Analyzer.findMatches_loop fuel p text from).
Proof.
  intros Hi. induction fuel as [|f IH]; intros from; [reflexivity|].
  cbn [Analyzer.findMatches_loop]. rewrite (@exec_lower _ _ _ Hi).
  destruct (exec p text from) as [[[b e]|]|]; cbn [option_map bind]; try reflexivity.
  cbn [lower_ends fst snd]. rewrite !position_lower, IH.
  destruct (Analyzer.findMatches_loop f p text (position e)); cbn [option_map bind];
    [|reflexivity].
  unfold lower_match at 2. cbn [map Analyzer.text Analyzer.index Analyzer.length].
  rewrite substring_lower. unfold toLowerCase at 2. rewrite length_map. reflexivity.
Qed.

Lemma findMatches_lower p text :
  ignoreCase p = true ->
  Analyzer.findMatches p (toLowerCase text) =
  option_map (map lower_match) (Analyzer.findMatches p text).
Proof.
  intros Hi. unfold Analyzer.findMatches.
  unfold toLowerCase at 1. rewrite length_map.
  apply findMatches_loop_lower. destruct (global p); [exact Hi | exact Hi].
Qed.

Lemma isNegated_lower text i n :
  Analyzer.isNegated (toLowerCase text) i n = Analyzer.isNegated text i n.
Proof.
  unfold Analyzer.isNegated. rewrite substring_lower, toLowerCase_idempotent. reflexivity.
Qed.

Lemma push_unless_negated_lower text : forall ms,
  Analyzer.push_unless_negated (toLowerCase text) (map lower_match ms) =
  option_map (map toLowerCase) (Analyzer.push_unless_negated text ms).
Proof.
  induction ms as [|m ms IH]; [reflexivity|].
  cbn [map Analyzer.push_unless_negated]. rewrite IH.
  cbn [lower_match Analyzer.index Analyzer.length Analyzer.text]. rewrite isNegated_lower.
  destruct (Analyzer.isNegated text (Analyzer.index m) (Analyzer.length m)) as [b|];
    cbn [bind option_map]; [|reflexivity].
  destruct (Analyzer.push_unless_negated text ms); cbn [bind option_map]; [|reflexivity].
  destruct b; reflexivity.
Qed.

Lemma scan_positive_lower text : forall patterns,
  forallb ignoreCase patterns = true ->
  Analyzer.scan_positive patterns (toLowerCase text) =
  option_map (map toLowerCase) (Analyzer.scan_positive patterns text).
Proof.
  induction patterns as [|p rest IH]; intros Hall; [reflexivity|].
  cbn [forallb] in Hall. apply andb_prop in Hall. destruct Hall as [Hp Hrest].
  cbn [Analyzer.scan_positive]. rewrite (@findMatches_lower _ _ Hp), (IH Hrest).
  destruct (Analyzer.findMatches p text) as [ms|]; cbn [bind option_map]; [|reflexivity].
  rewrite push_unless_negated_lower.
  destruct (Analyzer.push_unless_negated text ms); cbn [bind option_map]; [|reflexivity].
  destruct (Analyzer.scan_positive rest text); cbn [bind option_map]; [|reflexivity].
  rewrite map_app. reflexivity.
Qed.

Lemma scan_negative_lower text : forall patterns,
  forallb ignoreCase patterns = true ->
  Analyzer.scan_negative patterns (toLowerCase text) =
  option_map (map toLowerCase) (Analyzer.scan_negative patterns text).
Proof.
  induction patterns as [|p rest IH]; intros Hall; [reflexivity|].
  cbn [forallb] in Hall. apply andb_prop in Hall. destruct Hall as [Hp Hrest].
  cbn [Analyzer.scan_negative]. rewrite (@findMatches_lower _ _ Hp), (IH Hrest).
  destruct (Analyzer.findMatches p text) as [ms|]; cbn [bind option_map]; [|reflexivity].
  destruct (Analyzer.scan_negative rest text); cbn [bind option_map]; [|reflexivity].
  rewrite map_app, !map_map. reflexivity.
Qed.

Lemma scan_lower text :
  Analyzer.scan (toLowerCase text) = option_map lower_details (Analyzer.scan text).
Proof.
  unfold Analyzer.scan.
  rewrite !scan_positive_lower, !scan_negative_lower by (vm_compute; reflexivity).
  destruct (Analyzer.scan_positive Analyzer.STRONG_POSITIVE_PATTERNS text);
    cbn [bind option_map]; [|reflexivity].
  destruct (Analyzer.scan_positive Analyzer.MODERATE_POSITIVE_PATTERNS text);
    cbn [bind option_map]; [|reflexivity].
  destruct (Analyzer.scan_negative Analyzer.STRONG_NEGATIVE_PATTERNS text);
    cbn [bind option_map]; [|reflexivity].
  destruct (Analyzer.scan_negative Analyzer.MODERATE_NEGATIVE_PATTERNS text);
    cbn [bind option_map]; reflexivity.
Qed.

Lemma nonempty_map {A B} (f : A -> B) l :
  Analyzer.nonempty (map f l) = Analyzer.nonempty l.
Proof. destruct l; reflexivity. Qed.

(** X14: the classification does not depend on letter case: [analyze]
    gives the lower-cased text the same status, confidence, score and
    message as the text itself, and finds the same evidence in lower
    case. *)
Theorem analyze_ignores_letter_case (text : jsstring) :
  exists v v',
    Analyzer.analyze (JSString text) = Some v /\
    Analyzer.analyze (JSString (toLowerCase text)) = Some v' /\
    Analyzer.status v' = Analyzer.status v /\
    Analyzer.confidence v' = Analyzer.confidence v /\
    Analyzer.score v' = Analyzer.score v /\
    Analyzer.message v' = Analyzer.message v /\
    Analyzer.details v' = option_map lower_details (Analyzer.details v).
Proof.
  destruct text as [|c text].
  - exists Analyzer.no_description, Analyzer.no_description. repeat split.
  - destruct (scan_total (c :: text)) as [d Hs].
    exists (verdict_of d), (verdict_of (lower_details d)).
    split; [apply analyze_string; [discriminate | exact Hs]|].
    split; [apply analyze_string; [discriminate | rewrite scan_lower, Hs; reflexivity]|].
    unfold verdict_of, Analyzer.decide, Analyzer.score_of, lower_details.
    cbn [Analyzer.status Analyzer.confidence Analyzer.score Analyzer.message
         Analyzer.details Analyzer.strongPositive Analyzer.moderatePositive
         Analyzer.strongNegative Analyzer.moderateNegative option_map].
    rewrite !nonempty_map. repeat split.
Qed.

Lemma analyze_ignores_letter_case_witness :
  exists v v',
    Analyzer.analyze (JSString (str "NO SPONSORSHIP Available")) = Some v /\
    Analyzer.analyze (JSString (str "no sponsorship available")) = Some v' /\
    Analyzer.status v' = Analyzer.status v /\
    Analyzer.confidence v' = Analyzer.confidence v.
Proof.
  destruct (analyze_ignores_letter_case (str "NO SPONSORSHIP Available"))
    as (v & v' & H1 & H2 & H3 & H4 & _).
  exists v, v'. repeat split; assumption.
Defined.

(** ** content.js: [extractJobDescription] *)

Lemma trimStart_app_keep c r : is_space c = false ->
  forall pre, exists pre', trimStart (pre ++ c :: r) = pre' ++ c :: r.
Proof.
  intros Hc. induction pre as [|a pre [pre' IH]]; simpl.
  - exists []. rewrite Hc. reflexivity.
  - destruct (is_space a); [exists pre'; exact IH | exists (a :: pre); reflexivity].
Qed.

(** Trimming keeps every occurrence of a text that has no white space at
    its ends. *)
Lemma trim_keeps_trimmed t s :
  t <> [] -> trimmed t -> is_substring t s -> is_substring t (trim s).
Proof.
  intros Hne [Hstart Hend] (pre & post & ->).
  destruct t as [|c t']; [congruence|].
  pose proof (trimStart_head _ Hstart) as Hc.
  destruct (@trimStart_app_keep c (t' ++ post) Hc pre) as [pre' Hpre].
  destruct (rev (c :: t')) as [|c2 r2] eqn:Hrev.
  { apply (f_equal (@List.length ascii)) in Hrev. rewrite length_rev in Hrev. discriminate. }
  pose proof (trimStart_head _ Hend) as Hc2.
  unfold trim. cbn [app]. rewrite Hpre.
  replace (pre' ++ c :: t' ++ post) with (pre' ++ (c :: t') ++ post) by reflexivity.
  rewrite !rev_app_distr, Hrev. cbn [app]. rewrite <- app_assoc. cbn [app].
  destruct (@trimStart_app_keep c2 (r2 ++ rev pre') Hc2 (rev post)) as [post' Hpost].
  rewrite Hpost. exists pre', (rev post').
  replace (post' ++ c2 :: r2 ++ rev pre') with (post' ++ (c2 :: r2) ++ rev pre') by reflexivity.
  rewrite <- Hrev, !rev_app_distr, !rev_involutive, <- app_assoc. reflexivity.
Qed.

Lemma is_substring_length (p t : jsstring) :
  is_substring p t -> List.length p <= List.length t.
Proof. intros (pre & post & ->). rewrite !length_app. lia. Qed.

Lemma in_flat_map_split {A B} (f : A -> list B) x l :
  In x l -> exists l1 l2, flat_map f l = l1 ++ f x ++ l2.
Proof.
  intros H. apply in_split in H. destruct H as (a & b & ->).
  exists (flat_map f a), (flat_map f b).
  rewrite flat_map_app. reflexivity.
Qed.

Lemma truthy_nonempty (s : jsstring) : truthy (JSString s) = true <-> s <> [].
Proof. destruct s; simpl; split; congruence. Qed.

(** X15: [extractJobDescription] never returns the empty string: its
    result is null or a non-empty text without white space at either end.
    Whenever some selected element holds a text longer than 100 code
    units after trimming, the result is not null and holds that trimmed
    text verbatim (so it is longer than 100 code units too); when no
    element does, the result is the trimmed text of the main content, or
    null when that is missing or blank. *)
Theorem extractJobDescription_result (document : Extraction.Document) :
  (forall s, Extraction.extractJobDescription document = Some s ->
             s <> [] /\ trimmed s) /\
  (forall texts text,
     In texts (Extraction.selected document) -> In text texts ->
     100 < List.length (trim text) ->
     exists s, Extraction.extractJobDescription document = Some s /\
               is_substring (trim text) s /\ 100 < List.length s) /\
  ((forall texts text,
      In texts (Extraction.selected document) -> In text texts ->
      List.length (trim text) <= 100) ->
   Extraction.extractJobDescription document =
     match Extraction.mainContent document with
     | Some main => if truthy (JSString (trim main)) then Some (trim main) else None
     | None => None
     end).
Proof.
  unfold Extraction.extractJobDescription.
  set (collect := fun text : jsstring =>
                    if 100 <? List.length (trim text) then str " " ++ trim text else []).
  set (collected := flat_map collect (List.concat (Extraction.selected document))).
  split; [|split].
  - intros s.
    match goal with |- (if truthy (JSString (trim ?d)) then _ else _) = _ -> _ =>
      destruct (truthy (JSString (trim d))) eqn:E end; [|discriminate].
    intros [= <-]. split; [apply truthy_nonempty; exact E | apply trim_trimmed].
  - intros texts text Hsel Hin Hlong.
    assert (Hsub : is_substring (trim text) collected).
    { assert (Hin' : In text (List.concat (Extraction.selected document))).
      { apply in_concat. exists texts. split; assumption. }
      destruct (in_flat_map_split collect _ _ Hin') as (l1 & l2 & Hsplit).
      unfold collected. rewrite Hsplit. unfold collect.
      destruct (Nat.ltb_spec 100 (List.length (trim text))) as [_|Hle]; [|lia].
      exists (l1 ++ str " "), l2. rewrite <- !app_assoc. reflexivity. }
    assert (Hne : trim text <> []) by (intros E; rewrite E in Hlong; simpl in Hlong; lia).
    pose proof (trim_keeps_trimmed Hne (trim_trimmed text) Hsub) as Hkept.
    assert (Htruthy : truthy (JSString (trim collected)) = true).
    { apply truthy_nonempty. intros E. rewrite E in Hkept.
      apply is_substring_length in Hkept. simpl in Hkept. lia. }
    rewrite Htruthy. cbn [negb]. rewrite Htruthy.
    exists (trim collected). split; [reflexivity|]. split; [exact Hkept|].
    apply is_substring_length in Hkept. lia.
  - intros Hshort.
    assert (Hnil : collected = []).
    { unfold collected. induction (Extraction.selected document) as [|texts rest IH];
        [reflexivity|].
      cbn [List.concat]. rewrite flat_map_app, IH; [|intros ts t H1 H2; apply (Hshort ts t); [right|]; assumption].
      rewrite app_nil_r.
      assert (Hts : forall t, In t texts -> List.length (trim t) <= 100)
        by (intros t Ht; apply (Hshort texts t); [left; reflexivity | exact Ht]).
      clear -Hts. induction texts as [|t texts IHt]; [reflexivity|].
      cbn [flat_map]. rewrite IHt by (intros t' Ht'; apply Hts; right; exact Ht').
      unfold collect. destruct (Nat.ltb_spec 100 (List.length (trim t))) as [Hgt|_];
        [|reflexivity].
      specialize (Hts t (or_introl eq_refl)). lia. }
    rewrite Hnil. cbn [trim trimStart rev truthy negb app].
    destruct (Extraction.mainContent document); reflexivity.
Qed.

Lemma extractJobDescription_result_witness :
  Extraction.extractJobDescription
    {| Extraction.selected := [[str "  short  "]];
       Extraction.mainContent := Some (str "   ") |} = None.
Proof.
  rewrite (proj2 (proj2 (extractJobDescription_result
             {| Extraction.selected := [[str "  short  "]];
                Extraction.mainContent := Some (str "   ") |}))).
  - reflexivity.
  - intros texts text [<-|[]] [<-|[]]. vm_compute. lia.
Defined.

(** ** content.js: [isLinkedInJobPage] *)

Lemma starts_with_spec p : forall s,
  starts_with p s = true <-> exists post, s = p ++ post.
Proof.
  induction p as [|a p IH]; intros s.
  - simpl. split; [intros _; exists s; reflexivity | reflexivity].
  - destruct s as [|b s]; simpl.
    + split; [discriminate | intros [post H]; discriminate].
    + rewrite andb_true_iff, IH. unfold char_eqb. rewrite Ascii.eqb_eq. split.
      * intros [-> [post ->]]. exists post. reflexivity.
      * intros [post [= -> ->]]. split; [reflexivity | exists post; reflexivity].
Qed.

Lemma indexOf_from_sound p : forall s k k',
  indexOf_from s p k = Some k' -> is_substring p s.
Proof.
  induction s as [|a s IH]; intros k k'; cbn [indexOf_from].
  - destruct (starts_with p []) eqn:E; [|discriminate].
    intros _. apply starts_with_spec in E. destruct E as [post E].
    exists [], post. exact E.
  - destruct (starts_with p (a :: s)) eqn:E.
    + intros _. apply starts_with_spec in E. destruct E as [post E].
      exists [], post. exact E.
    + intros H. apply IH in H. destruct H as (pre & post & ->).
      exists (a :: pre), post. reflexivity.
Qed.

(** [includes] holds exactly of the texts that occur in the subject. *)
Lemma includes_spec s p : Extraction.includes s p = true <-> is_substring p s.
Proof.
  unfold Extraction.includes, indexOf. split.
  - destruct (indexOf_from s p 0) eqn:E; [|discriminate].
    intros _. eapply indexOf_from_sound. exact E.
  - intros (pre & post & ->).
    destruct (indexOf_from_found p post pre 0) as (k & -> & _). reflexivity.
Qed.

Lemma matcher_literal k : forall s x,
  matcher false (Extraction.literal s k) x =
  if starts_with s (after x)
  then matcher false k (Cursor (rev s ++ before x) (skipn (List.length s) (after x)))
  else [].
Proof.
  induction s as [|c s IH]; intros [bef aft].
  - reflexivity.
  - cbn [Extraction.literal matcher after before].
    destruct aft as [|a rest]; [reflexivity|].
    unfold advance. cbn [after before starts_with List.length skipn].
    unfold same_char. cbn [canonicalize andb]. unfold char_eqb.
    destruct (Ascii.eqb_spec c a) as [<-|Hne]; cbn [andb flat_map]; [|reflexivity].
    rewrite app_nil_r, IH. cbn [after before rev]. rewrite <- app_assoc. reflexivity.
Qed.

Lemma matcher_digit x : matcher false Extraction.digit x = advance is_digit x.
Proof.
  destruct x as [bef [|a rest]]; [reflexivity|].
  destruct a as [[] [] [] [] [] [] [] []]; reflexivity.
Qed.

Lemma flat_map_nonempty {A B} (g : A -> list B) l :
  l <> [] -> (forall z, g z <> []) -> flat_map g l <> [].
Proof.
  destruct l as [|a l]; [congruence|]. intros _ Hg. simpl.
  specialize (Hg a). destruct (g a); [congruence | discriminate].
Qed.

(** The part of the view pattern after the literal prefix matches exactly
    at a digit. *)
Lemma view_tail_matches x :
  matcher false
    (Seq (Quant Extraction.digit 1 None)
         (Seq (Quant (Char "/"%char) 0 (Some 1)) Empty)) x <> [] <->
  exists d rest, after x = d :: rest /\ is_digit d = true.
Proof.
  destruct x as [bef aft]. cbn [matcher after]. split.
  - intros Hne. cbn [repeat_matcher Nat.eqb andb] in Hne.
    rewrite matcher_digit in Hne. unfold advance in Hne. cbn [after before] in Hne.
    destruct aft as [|d rest]; [cbn in Hne; congruence|].
    destruct (is_digit d) eqn:E; [exists d, rest; auto | cbn in Hne; congruence].
  - intros (d & rest & -> & Hd). apply flat_map_nonempty.
    + cbn [repeat_matcher Nat.eqb andb Nat.add List.length pred option_map].
      rewrite matcher_digit. unfold advance at 1. cbn [after before]. rewrite Hd.
      cbn [flat_map]. rewrite app_nil_r.
      destruct (flat_map _ _); discriminate.
    + intros z. apply flat_map_nonempty; [|discriminate].
      cbn [repeat_matcher Nat.eqb]. destruct (flat_map _ _); discriminate.
Qed.

Lemma view_pattern_found path :
  exec_compiled false Extraction.viewPattern path 0 <> None <->
  exists pre d post,
    path = pre ++ str "/jobs/view/" ++ d :: post /\ is_digit d = true.
Proof.
  unfold exec_compiled. cbn [Nat.leb cursor_at firstn skipn rev before after].
  unfold Extraction.viewPattern. split.
  - destruct (search false _ [] path) as [[b e]|] eqn:Hs; [|congruence].
    intros _. apply search_sound in Hs. destruct Hs as [(sk & Hb & Ha) Hin].
    cbn [before after] in Hb, Ha.
    rewrite matcher_literal in Hin.
    destruct (starts_with (str "/jobs/view/") (after b)) eqn:Hst; [|destruct Hin].
    apply starts_with_spec in Hst. destruct Hst as [r Hr].
    rewrite Hr in Hin.
    change (skipn (List.length (str "/jobs/view/")) (str "/jobs/view/" ++ r)) with r in Hin.
    assert (Hne : matcher false
              (Seq (Quant Extraction.digit 1 None)
                   (Seq (Quant (Char "/"%char) 0 (Some 1)) Empty))
              (Cursor (rev (str "/jobs/view/") ++ before b) r) <> []).
    { intros E. rewrite E in Hin. exact Hin. }
    apply view_tail_matches in Hne. destruct Hne as (d & post & Hd & Hdig).
    cbn [after] in Hd. subst r.
    exists sk, d, post. split; [rewrite Ha, Hr; reflexivity | exact Hdig].
  - intros (pre & d & post & -> & Hd).
    apply (@search_complete false _ _ [] pre (str "/jobs/view/" ++ d :: post) eq_refl).
    rewrite matcher_literal. cbn [after before].
    rewrite starts_with_app.
    change (skipn (List.length (str "/jobs/view/")) (str "/jobs/view/" ++ d :: post))
      with (d :: post).
    apply view_tail_matches. exists d, post. split; [reflexivity | exact Hd].
Qed.

(** X16: [isLinkedInJobPage] holds exactly when the path contains
    "/jobs/search" and the URL contains "currentJobId=", or the path
    contains "/jobs/view/" directly followed by a digit, or the path
    contains "/jobs/collections/".  The pattern is not anchored and the
    optional slash at its end changes nothing. *)
Theorem isLinkedInJobPage_iff (url path : jsstring) :
  Extraction.isLinkedInJobPage url path = true <->
  (is_substring (str "/jobs/search") path /\ is_substring (str "currentJobId=") url) \/
  (exists pre d post,
     path = pre ++ str "/jobs/view/" ++ d :: post /\ is_digit d = true) \/
  is_substring (str "/jobs/collections/") path.
Proof.
  unfold Extraction.isLinkedInJobPage.
  rewrite <- !includes_spec, <- view_pattern_found.
  destruct (Extraction.includes path (str "/jobs/search"));
    destruct (Extraction.includes url (str "currentJobId="));
    destruct (exec_compiled false Extraction.viewPattern path 0);
    destruct (Extraction.includes path (str "/jobs/collections/"));
    cbn [andb]; split; intros H; try reflexivity; try discriminate;
    try (left; split; reflexivity);
    try (right; left; discriminate);
    try (right; right; reflexivity);
    destruct H as [[H1 H2]|[H|H]]; congruence.
Qed.

Lemma isLinkedInJobPage_iff_witness :
  Extraction.isLinkedInJobPage (str "https://www.linkedin.com/jobs/view/") (str "/jobs/view/") = false /\
  Extraction.isLinkedInJobPage (str "https://www.linkedin.com/x/jobs/view/4x")
    (str "/x/jobs/view/4x") = true.
Proof.
  split.
  - vm_compute. reflexivity.
  - apply isLinkedInJobPage_iff. right. left.
    exists (str "/x"), "4"%char, (str "x"). split; reflexivity.
Defined.
